(** * bearden: configuration merge, health probe and daemon controller

    A shallow embedding of [app.py], [gunicorn.conf.py] and [server.py].

    - [Py]      Python values as the code handles them (TOML documents, JSON
                bodies) and the outcome of a call that may raise.
    - [Config]  [deep_merge], [load_config] and the two port lookups.
    - [Heap]    [deep_merge] again, over a store of mutable objects, to
                account for aliasing and in-place assignment.
    - [Health]  the [/health/<service_id>] route.
    - [Daemon]  [get_pid], [start], [stop], [restart] and [status] over a
                PID file and an arbitrary process environment.
    - [ConfigFacts], [HeapFacts], [HealthFacts], [DaemonFacts]
                further properties of the same functions, with [index] and
                the [main] of [server.py]. *)

From stdpp Require Import base tactics option list strings.
From Stdlib Require Import ZArith QArith Lia Ascii DecimalString.

#[local] Open Scope Z_scope.
#[local] Open Scope string_scope.
#[local] Open Scope list_scope.

(* ===================================================================== *)
(** ** Python values *)
(* ===================================================================== *)

Module Py.

(** What [tomllib.load] produces and what [jsonify] consumes.  A dict keeps
    its items in insertion order; its keys are strings here (TOML keys, JSON
    member names).  Floats are carried as rationals; the dates and times of
    TOML, which the code never looks into, are left out. *)
#[warnings="-register-all"]
Inductive value : Type :=
| VNone
| VBool (b : bool)
| VInt (z : Z)
| VFloat (x : Q)
| VStr (s : string)
| VList (items : list value)
| VDict (items : list (string * value)).

Definition dict : Type := list (string * value).

(** [isinstance(v, dict)] *)
Definition is_dict (v : value) : bool :=
  match v with VDict _ => true | _ => false end.

(** Dict items in general: [V] is [value] here and a reference in [Heap]. *)

(** [d.get(k)]: [None] stands for an absent key. *)
Fixpoint dict_get {V} (k : string) (d : list (string * V)) : option V :=
  match d with
  | [] => None
  | (k', v) :: rest => if String.eqb k k' then Some v else dict_get k rest
  end.

(** [d[k] = v]: an existing key keeps its position, a new key is appended. *)
Fixpoint dict_set {V} (k : string) (v : V) (d : list (string * V)) : list (string * V) :=
  match d with
  | [] => [(k, v)]
  | (k', v') :: rest =>
      if String.eqb k k' then (k', v) :: rest else (k', v') :: dict_set k v rest
  end.

Definition keys {V} (d : list (string * V)) : list string := map fst d.

(** A Python dict never holds a key twice. *)
Fixpoint nodup_keys (ks : list string) : bool :=
  match ks with
  | [] => true
  | k :: rest => negb (existsb (String.eqb k) rest) && nodup_keys rest
  end.

Definition unique_keys {V} (d : list (string * V)) : bool := nodup_keys (keys d).

(** Exceptions the modelled code can meet. *)
Inductive exn : Type :=
| AttributeError
| TypeError
| KeyError
| ValueError
| FileNotFoundError
| PermissionError
| ProcessLookupError
| OverflowError
| LocationParseError.

(** A call either returns or raises. *)
Inductive outcome (A : Type) : Type :=
| Ok (a : A)
| Raised (e : exn).
Arguments Ok {A} a.
Arguments Raised {A} e.

Definition obind {A B} (m : outcome A) (f : A -> outcome B) : outcome B :=
  match m with Ok a => f a | Raised e => Raised e end.

(** [v.get(k, default)]; only a dict has a [get] method. *)
Definition py_get (v : value) (k : string) (default : value) : outcome value :=
  match v with
  | VDict d => Ok (match dict_get k d with Some x => x | None => default end)
  | _ => Raised AttributeError
  end.

(** *** Facts about dict lookup and assignment *)

Lemma dict_get_set_same {V} k (v : V) d : dict_get k (dict_set k v d) = Some v.
Proof.
  induction d as [|[k' v'] rest IH]; simpl.
  - by rewrite String.eqb_refl.
  - destruct (String.eqb k k') eqn:E; simpl; rewrite E; [done | exact IH].
Qed.

Lemma dict_get_set_other {V} k k' (v : V) d :
  k <> k' -> dict_get k (dict_set k' v d) = dict_get k d.
Proof.
  intros Hne. induction d as [|[k0 v0] rest IH]; simpl.
  - destruct (String.eqb k k') eqn:E; [|done].
    apply String.eqb_eq in E. contradiction.
  - destruct (String.eqb k' k0) eqn:E'; simpl.
    + apply String.eqb_eq in E'. subst k0.
      destruct (String.eqb k k') eqn:E; [|done].
      apply String.eqb_eq in E. contradiction.
    + destruct (String.eqb k k0); [done | exact IH].
Qed.

Lemma dict_get_None_existsb {V} k (d : list (string * V)) :
  existsb (String.eqb k) (keys d) = false -> dict_get k d = None.
Proof.
  induction d as [|[k' v'] rest IH]; simpl; [done|].
  destruct (String.eqb k k'); simpl; [done | exact IH].
Qed.

End Py.

(* ===================================================================== *)
(** ** Config loader and port lookups *)
(* ===================================================================== *)

Module Config.
Import Py.

(** The recursion of [deep_merge] descends into the values of [override].
    Rocq accepts it when the override is taken as a [value]; the loop over
    its items is the inner [fix]. *)
Fixpoint merge_value (result : dict) (override : value) {struct override} : dict :=
  match override with
  | VDict items =>
      (fix loop (items result : dict) {struct items} : dict :=
         match items with
         | [] => result
         | (key, value) :: rest =>
             loop rest
               match dict_get key result, value with
               | Some (VDict r), VDict _ =>
                   dict_set key (VDict (merge_value r value)) result
               | _, _ => dict_set key value result
               end
         end) items result
  | _ => result   (* not reached: [deep_merge] passes a dict *)
  end.

(** app.py:14 [deep_merge(base, override)]; [result = base.copy()] is the
    value [base] itself in this pure model (aliasing is the subject of
    [Heap]). *)
Definition deep_merge (base override : dict) : dict :=
  let result := base in
  merge_value result (VDict override).

(** app.py:17-21, the loop body as the source writes it, with its recursive
    call; [deep_merge_unfold] shows [deep_merge] is this loop run on a copy
    of [base]. *)
Fixpoint merge_loop (items result : dict) {struct items} : dict :=
  match items with
  | [] => result
  | (key, value) :: rest =>
      merge_loop rest
        match dict_get key result, value with
        | Some (VDict r), VDict o => dict_set key (VDict (deep_merge r o)) result
        | _, _ => dict_set key value result
        end
  end.

(** A configuration file on disk: [None] when the file does not exist,
    otherwise the dict [tomllib.load] returns for it.  A file that exists
    but that [open] or [tomllib.load] rejects (unreadable, or not TOML) is
    not among the documents: what is stated over documents is stated for
    files that load. *)
Definition document : Type := option dict.

(** app.py:25 [load_config]: the base file is opened without a check, the
    local file only if it exists. *)
Definition load_config (config_toml config_local_toml : document) : outcome dict :=
  match config_toml with
  | None => Raised FileNotFoundError
  | Some config =>
      match config_local_toml with
      | Some local_config => Ok (deep_merge config local_config)
      | None => Ok config
      end
  end.

(** app.py:72-73, the port [main] hands to [app.run]. *)
Definition main_port (config_toml config_local_toml : document) : outcome value :=
  obind (load_config config_toml config_local_toml) (fun config =>
  obind (py_get (VDict config) "server" (VDict [])) (fun server =>
  py_get server "port" (VInt 5000))).

(** gunicorn.conf.py:7 [_load_port]: each file is read only if it exists,
    the later lookup defaulting to the earlier result. *)
Definition _load_port (config_toml config_local_toml : document) : outcome value :=
  let port := VInt 5000 in
  obind
    match config_toml with
    | Some app_config =>
        obind (py_get (VDict app_config) "server" (VDict [])) (fun server =>
        py_get server "port" port)
    | None => Ok port
    end (fun port =>
  match config_local_toml with
  | Some local_app_config =>
      obind (py_get (VDict local_app_config) "server" (VDict [])) (fun server =>
      py_get server "port" port)
  | None => Ok port
  end).

(** The two reads agree. *)
Definition ports_agree (config_toml config_local_toml : document) : Prop :=
  _load_port config_toml config_local_toml = main_port config_toml config_local_toml.

(** The shape the configuration format gives a document: [server], where
    present, is a table, and its [port], where present, is an integer. *)
Definition typed_server (server : value) : bool :=
  match server with
  | VDict s =>
      unique_keys s &&
      match dict_get "port" s with
      | None | Some (VInt _) => true
      | Some _ => false
      end
  | _ => false
  end.

Definition typed_doc (doc : dict) : bool :=
  unique_keys doc &&
  match dict_get "server" doc with
  | None => true
  | Some server => typed_server server
  end.

Definition typed_document (file : document) : bool :=
  match file with Some doc => typed_doc doc | None => true end.

(** A base document and a local override, as [tomllib] would load them. *)
Definition base_doc : dict :=
  [ ("server", VDict [("port", VInt 5000); ("host", VStr "0.0.0.0")]);
    ("services", VDict [("wiki", VDict [("url", VStr "http://wiki.lan");
                                        ("tags", VList [VStr "docs"])])]);
    ("title", VStr "bearden") ].

Definition local_doc : dict :=
  [ ("server", VDict [("port", VInt 8080)]);
    ("services", VDict [("wiki", VDict [("tags", VList [VStr "internal"])]);
                        ("git", VDict [("url", VStr "http://git.lan")])]);
    ("title", VDict [("text", VStr "local")]);
    ("debug", VBool true) ].

(** *** The unfolding equation of [deep_merge] *)

Lemma merge_value_loop items result :
  merge_value result (VDict items) = merge_loop items result.
Proof.
  revert result. induction items as [|[key value] rest IH]; intros result.
  - reflexivity.
  - simpl merge_loop. rewrite <- IH. simpl.
    destruct (dict_get key result) as [[]|]; try reflexivity.
    destruct value; reflexivity.
Qed.

Lemma deep_merge_unfold base override :
  deep_merge base override = merge_loop override base.
Proof. apply merge_value_loop. Qed.

(** What one pass of the loop stores at [key]. *)
Definition merged_entry (old : option value) (new : value) : value :=
  match old, new with
  | Some (VDict r), VDict o => VDict (deep_merge r o)
  | _, _ => new
  end.

Lemma merge_loop_step key value rest result :
  merge_loop ((key, value) :: rest) result =
  merge_loop rest (dict_set key (merged_entry (dict_get key result) value) result).
Proof.
  simpl. unfold merged_entry.
  destruct (dict_get key result) as [[]|]; try reflexivity.
  destruct value; reflexivity.
Qed.

(** Keys the override does not mention keep what [result] had. *)
Lemma merge_loop_untouched k items result :
  dict_get k items = None ->
  dict_get k (merge_loop items result) = dict_get k result.
Proof.
  revert result. induction items as [|[key value] rest IH]; intros result Hk.
  - reflexivity.
  - rewrite merge_loop_step. simpl in Hk.
    destruct (String.eqb k key) eqn:E; [done|].
    rewrite (IH _ Hk). apply dict_get_set_other.
    intros ->. by rewrite String.eqb_refl in E.
Qed.

(** Keys the override mentions end up with the merged entry. *)
Lemma merge_loop_lookup k v items result :
  unique_keys items = true ->
  dict_get k items = Some v ->
  dict_get k (merge_loop items result) =
  Some (merged_entry (dict_get k result) v).
Proof.
  unfold unique_keys.
  revert result. induction items as [|[key value] rest IH]; intros result Hu Hk.
  - discriminate.
  - rewrite merge_loop_step. simpl in Hu, Hk.
    apply andb_true_iff in Hu as [Hfresh Hu].
    apply negb_true_iff in Hfresh.
    destruct (String.eqb k key) eqn:E.
    + apply String.eqb_eq in E. subst key. injection Hk as ->.
      rewrite merge_loop_untouched by (by apply dict_get_None_existsb).
      apply dict_get_set_same.
    + rewrite (IH _ Hu Hk). f_equal. f_equal.
      apply dict_get_set_other. intros ->. by rewrite String.eqb_refl in E.
Qed.

Lemma deep_merge_untouched k base override :
  dict_get k override = None ->
  dict_get k (deep_merge base override) = dict_get k base.
Proof. rewrite deep_merge_unfold. apply merge_loop_untouched. Qed.

(** C1. For dicts [base] and [override] (a Python dict holds each key once):
    a key only [override] has maps to [override]'s value; a key whose values
    are dicts on both sides maps to the recursive merge of the two; every
    other key of [override] maps to [override]'s value as it is; and merging
    the empty dict into [base] gives [base]. *)
Theorem deep_merge_spec (base override : dict) :
  unique_keys override = true ->
  (forall k v, dict_get k base = None -> dict_get k override = Some v ->
     dict_get k (deep_merge base override) = Some v) /\
  (forall k b o, dict_get k base = Some (VDict b) ->
     dict_get k override = Some (VDict o) ->
     dict_get k (deep_merge base override) = Some (VDict (deep_merge b o))) /\
  (forall k v w, dict_get k base = Some w -> dict_get k override = Some v ->
     is_dict w && is_dict v = false ->
     dict_get k (deep_merge base override) = Some v) /\
  deep_merge base [] = base.
Proof.
  intros Hu. repeat split.
  - intros k v Hb Ho. rewrite deep_merge_unfold.
    rewrite (merge_loop_lookup _ _ _ _ Hu Ho), Hb. reflexivity.
  - intros k b o Hb Ho. rewrite deep_merge_unfold.
    rewrite (merge_loop_lookup _ _ _ _ Hu Ho), Hb. reflexivity.
  - intros k v w Hb Ho Hnd. rewrite deep_merge_unfold.
    rewrite (merge_loop_lookup _ _ _ _ Hu Ho), Hb.
    destruct w; try reflexivity. destruct v; try reflexivity. discriminate.
Qed.

Example deep_merge_docs :
  deep_merge base_doc local_doc =
  [ ("server", VDict [("port", VInt 8080); ("host", VStr "0.0.0.0")]);
    ("services", VDict [("wiki", VDict [("url", VStr "http://wiki.lan");
                                        ("tags", VList [VStr "internal"])]);
                        ("git", VDict [("url", VStr "http://git.lan")])]);
    ("title", VDict [("text", VStr "local")]);
    ("debug", VBool true) ].
Proof. reflexivity. Qed.

Lemma deep_merge_spec_witness :
  (forall k v, dict_get k base_doc = None -> dict_get k local_doc = Some v ->
     dict_get k (deep_merge base_doc local_doc) = Some v) /\
  (forall k b o, dict_get k base_doc = Some (VDict b) ->
     dict_get k local_doc = Some (VDict o) ->
     dict_get k (deep_merge base_doc local_doc) = Some (VDict (deep_merge b o))) /\
  (forall k v w, dict_get k base_doc = Some w -> dict_get k local_doc = Some v ->
     is_dict w && is_dict v = false ->
     dict_get k (deep_merge base_doc local_doc) = Some v) /\
  deep_merge base_doc [] = base_doc.
Proof. apply (deep_merge_spec base_doc local_doc). reflexivity. Defined.

(** *** The two port lookups *)

Lemma typed_server_inv server :
  typed_server server = true ->
  exists s, server = VDict s /\ unique_keys s = true /\
    (dict_get "port" s = None \/ exists p, dict_get "port" s = Some (VInt p)).
Proof.
  destruct server as [| | | | | |s]; try discriminate. simpl.
  intros [Hu Hp]%andb_true_iff. exists s. repeat split; [done|].
  destruct (dict_get "port" s) as [[]|]; try discriminate; eauto.
Qed.

(** The port a typed [server] table yields over a default. *)
Lemma port_of_merged_server bs ls (dflt : value) :
  unique_keys ls = true ->
  (dict_get "port" ls = None \/ exists p, dict_get "port" ls = Some (VInt p)) ->
  match dict_get "port" (deep_merge bs ls) with Some x => x | None => dflt end =
  match dict_get "port" ls with
  | Some x => x
  | None => match dict_get "port" bs with Some x => x | None => dflt end
  end.
Proof.
  intros Hu [Hnone | [p Hp]].
  - by rewrite (deep_merge_untouched _ _ _ Hnone), Hnone.
  - rewrite deep_merge_unfold, (merge_loop_lookup _ _ _ _ Hu Hp), Hp.
    by destruct (dict_get "port" bs) as [[]|].
Qed.

(** C9 (amended). With the base document present and both documents shaped
    as the configuration format prescribes, [_load_port] and [main] both
    return, and return the same integer port. *)
Theorem ports_agree_base_present (base : dict) (local : document) :
  typed_doc base = true ->
  typed_document local = true ->
  ports_agree (Some base) local /\
  exists port, main_port (Some base) local = Ok (VInt port).
Proof.
  unfold ports_agree, typed_doc, _load_port, main_port, load_config.
  intros [_ Hb]%andb_true_iff Hl.
  destruct local as [local|]; simpl in *.
  - apply andb_true_iff in Hl as [Hul Hl].
    rewrite deep_merge_unfold.
    destruct (dict_get "server" local) as [lserver|] eqn:Els.
    + apply typed_server_inv in Hl as (ls & -> & Huls & Hlp).
      rewrite (merge_loop_lookup _ _ _ _ Hul Els).
      destruct (dict_get "server" base) as [bserver|] eqn:Ebs; simpl.
      * apply typed_server_inv in Hb as (bs & -> & _ & Hbp). simpl.
        rewrite (port_of_merged_server _ _ _ Huls Hlp).
        split; [done|].
        destruct Hlp as [-> | [p ->]]; [|eauto].
        destruct Hbp as [-> | [p ->]]; eauto.
      * split; [done|]. destruct Hlp as [-> | [p ->]]; eauto.
    + rewrite (merge_loop_untouched _ _ _ Els).
      destruct (dict_get "server" base) as [bserver|] eqn:Ebs; simpl.
      * apply typed_server_inv in Hb as (bs & -> & _ & Hbp). simpl.
        split; [done|]. destruct Hbp as [-> | [p ->]]; eauto.
      * eauto.
  - destruct (dict_get "server" base) as [bserver|] eqn:Ebs; simpl.
    + apply typed_server_inv in Hb as (bs & -> & _ & Hbp). simpl.
      split; [done|]. destruct Hbp as [-> | [p ->]]; eauto.
    + eauto.
Qed.

Lemma ports_agree_base_present_witness :
  ports_agree (Some base_doc) (Some local_doc) /\
  exists port, main_port (Some base_doc) (Some local_doc) = Ok (VInt port).
Proof.
  apply (ports_agree_base_present base_doc (Some local_doc)); reflexivity.
Defined.

Example ports_of_docs :
  _load_port (Some base_doc) (Some local_doc) = Ok (VInt 8080) /\
  main_port (Some base_doc) (Some local_doc) = Ok (VInt 8080) /\
  _load_port (Some base_doc) None = Ok (VInt 5000) /\
  main_port (Some base_doc) None = Ok (VInt 5000).
Proof. repeat split. Qed.

(** C9 as stated fails when the base file is absent: [_load_port] skips the
    missing file and answers from the local override, [load_config] raises
    on opening it. *)
Lemma ports_disagree_base_absent :
  _load_port None (Some local_doc) = Ok (VInt 8080) /\
  main_port None (Some local_doc) = Raised FileNotFoundError /\
  ~ ports_agree None (Some local_doc).
Proof. repeat split. discriminate. Qed.

End Config.

(* ===================================================================== *)
(** ** [deep_merge] over a store of objects *)
(* ===================================================================== *)

Module Heap.
Import Py.

(** A reference to an object. *)
Abbreviation loc := nat.

(** An object of the store; lists and dicts hold references. *)
Inductive object : Type :=
| ONone
| OBool (b : bool)
| OInt (z : Z)
| OFloat (x : Q)
| OStr (s : string)
| OList (items : list loc)
| ODict (items : list (string * loc)).

(** The store: the object at index [l] is the one [l] refers to.  A new
    object goes to the end; assignment into a dict replaces the object in
    place. *)
Abbreviation heap := (list object).

(** The items of the dict at [l]; [None] if [l] is no dict. *)
Definition dict_items (h : heap) (l : loc) : option (list (string * loc)) :=
  match h !! l with
  | Some (ODict items) => Some items
  | _ => None
  end.

(** [isinstance(l, dict)] *)
Definition is_dict (h : heap) (l : loc) : bool :=
  match h !! l with
  | Some (ODict _) => true
  | _ => false
  end.

(** [d[key] = value] on the dict at [d]. *)
Definition setitem (d : loc) (key : string) (value : loc) (h : heap) : option heap :=
  items ← dict_items h d;
  Some (<[d := ODict (dict_set key value items)]> h).

(** app.py:17-21, [n] more rounds of the loop, the iterator of
    [override.items()] standing at position [i] and reading the dict as it
    is in the store at that moment; [rec] is the recursive call.  [None]:
    the call does not come back with a value (an argument that is no dict,
    an iterator that finds its dict shorter, recursion beyond the limit). *)
Fixpoint merge_loop (rec : loc -> loc -> heap -> option (loc * heap))
    (result override : loc) (n i : nat) (h : heap) : option heap :=
  match n with
  | O => Some h
  | S n' =>
      oitems ← dict_items h override;
      '(key, value) ← oitems !! i;
      ritems ← dict_items h result;
      h' ← match dict_get key ritems with
            | Some current =>
                if is_dict h current && is_dict h value then
                  '(merged, h1) ← rec current value h;
                  setitem result key merged h1
                else setitem result key value h
            | None => setitem result key value h
            end;
      merge_loop rec result override n' (S i) h'
  end.

(** app.py:14 [deep_merge(base, override)], [fuel] bounding the depth of
    recursion as the interpreter's recursion limit does. *)
Fixpoint deep_merge (fuel : nat) (base override : loc) (h : heap)
    : option (loc * heap) :=
  match fuel with
  | O => None
  | S fuel' =>
      bitems ← dict_items h base;
      let result := length h in
      let h := h ++ [ODict bitems] in
      oitems ← dict_items h override;
      h ← merge_loop (deep_merge fuel') result override (length oitems) 0 h;
      Some (result, h)
  end.

(** *** Well-formed stores *)

(** No dict holds a key twice and no reference dangles. *)
Definition wf_object (n : nat) (o : object) : bool :=
  match o with
  | ODict items =>
      unique_keys items && forallb (fun kv => (snd kv <? n)%nat) items
  | OList items => forallb (fun l => (l <? n)%nat) items
  | _ => true
  end.

Definition wf_heap (h : heap) : bool := forallb (wf_object (length h)) h.

(** *** What a call has built *)

(** [Merged old new h base override result]: in [h], the dict [result] is
    the merge of the dicts [base] and [override]; the arguments, at every
    level, lie below [old], and the results, at every level, at or above
    [new]. *)
Inductive Merged (old new : nat) (h : heap) : loc -> loc -> loc -> Prop :=
| Merged_intro base override result bitems oitems ritems :
    (base < old)%nat -> (override < old)%nat -> (new <= result)%nat ->
    h !! base = Some (ODict bitems) ->
    h !! override = Some (ODict oitems) ->
    h !! result = Some (ODict ritems) ->
    (* keys [override] does not have *)
    (forall key, dict_get key oitems = None ->
       dict_get key ritems = dict_get key bitems) ->
    (* keys only [override] has *)
    (forall key value, dict_get key oitems = Some value ->
       dict_get key bitems = None ->
       dict_get key ritems = Some value) ->
    (* keys both have, not with a dict on each side *)
    (forall key value current, dict_get key oitems = Some value ->
       dict_get key bitems = Some current ->
       is_dict h current && is_dict h value = false ->
       dict_get key ritems = Some value) ->
    (* keys both have with a dict on each side *)
    (forall key value current, dict_get key oitems = Some value ->
       dict_get key bitems = Some current ->
       is_dict h current && is_dict h value = true ->
       exists merged, dict_get key ritems = Some merged) ->
    (forall key value current merged, dict_get key oitems = Some value ->
       dict_get key bitems = Some current ->
       is_dict h current && is_dict h value = true ->
       dict_get key ritems = Some merged ->
       Merged old new h current value merged) ->
    Merged old new h base override result.

(** What the body of the loop did in a round that went through. *)
Inductive round (rec : loc -> loc -> heap -> option (loc * heap))
    (result : loc) (key : string) (value : loc) (h h' : heap) : Prop :=
| round_merge ritems current merged h1 :
    h !! result = Some (ODict ritems) ->
    dict_get key ritems = Some current ->
    is_dict h current && is_dict h value = true ->
    rec current value h = Some (merged, h1) ->
    setitem result key merged h1 = Some h' ->
    round rec result key value h h'
| round_replace ritems :
    h !! result = Some (ODict ritems) ->
    match dict_get key ritems with
    | Some current => is_dict h current && is_dict h value = false
    | None => True
    end ->
    setitem result key value h = Some h' ->
    round rec result key value h h'.

(** A call returns a new reference and leaves every object of the store it
    started from as it was. *)
Definition frames (rec : loc -> loc -> heap -> option (loc * heap)) : Prop :=
  forall b o h m h', rec b o h = Some (m, h') ->
    m = length h /\ (length h < length h')%nat /\
    forall l, (l < length h)%nat -> h' !! l = h !! l.

(** A call builds the merge of its arguments, in a store that stays
    well-formed. *)
Definition builds (rec : loc -> loc -> heap -> option (loc * heap)) : Prop :=
  forall b o h m h', rec b o h = Some (m, h') ->
    wf_heap h = true -> (o < length h)%nat ->
    wf_heap h' = true /\ Merged (length h) (length h) h' b o m.

(** A store holding the server tables of a base document (at 2) and a local
    override (at 5), and the two documents (at 3 and 6). *)
Definition two_docs : heap :=
  [ OInt 5000; OStr "0.0.0.0";
    ODict [("port", 0%nat); ("host", 1%nat)];
    ODict [("server", 2%nat); ("title", 1%nat)];
    OInt 8080;
    ODict [("port", 4%nat)];
    ODict [("server", 5%nat); ("debug", 4%nat)] ].

(** What [deep_merge] makes of [two_docs], merging 6 into 3: the new
    document at 7 and the new server table at 8. *)
Definition merged_docs : heap :=
  two_docs ++
  [ ODict [("server", 8%nat); ("title", 1%nat); ("debug", 4%nat)];
    ODict [("port", 4%nat); ("host", 1%nat)] ].

(** [nesting h d l]: from [l] on, dicts nest in dicts at most [d] deep. *)
Fixpoint nesting (h : heap) (d : nat) (l : loc) : bool :=
  match d with
  | O => negb (is_dict h l)
  | S d' =>
      match h !! l with
      | Some (ODict items) => forallb (fun kv => nesting h d' (snd kv)) items
      | _ => true
      end
  end.

(** The value a reference stands for: the object with the values of its
    items in place of the references, read [fuel] levels deep. *)
Fixpoint read (fuel : nat) (h : heap) (l : loc) : option Py.value :=
  match fuel with
  | O => None
  | S fuel' =>
      o ← h !! l;
      match o with
      | ONone => Some VNone
      | OBool b => Some (VBool b)
      | OInt z => Some (VInt z)
      | OFloat x => Some (VFloat x)
      | OStr s => Some (VStr s)
      | OList items => VList <$> mapM (read fuel' h) items
      | ODict items =>
          VDict <$> mapM (fun kv => v ← read fuel' h (snd kv); Some (fst kv, v)) items
      end
  end.

(** *** Dicts and stores *)

Lemma dict_items_Some h l items :
  dict_items h l = Some items <-> h !! l = Some (ODict items).
Proof.
  unfold dict_items. destruct (h !! l) as [[]|]; split; congruence.
Qed.

Lemma is_dict_true h l :
  is_dict h l = true <-> exists items, h !! l = Some (ODict items).
Proof.
  unfold is_dict. destruct (h !! l) as [[]|]; split;
    try done; try (intros [? ?]; done); eauto.
Qed.

Lemma is_dict_agree h h' l : h' !! l = h !! l -> is_dict h' l = is_dict h l.
Proof. unfold is_dict. by intros ->. Qed.

Lemma setitem_Some d key value h h' :
  setitem d key value h = Some h' ->
  exists items,
    h !! d = Some (ODict items) /\
    h' = <[d := ODict (dict_set key value items)]> h.
Proof.
  unfold setitem. destruct (dict_items h d) as [items|] eqn:E; [|done].
  simpl. intros [= <-]. apply dict_items_Some in E. eauto.
Qed.

Lemma dict_get_app {V} k (d1 d2 : list (string * V)) :
  dict_get k (d1 ++ d2) =
  match dict_get k d1 with Some v => Some v | None => dict_get k d2 end.
Proof.
  induction d1 as [|[k' v'] rest IH]; simpl; [done|].
  by destruct (String.eqb k k').
Qed.

Lemma unique_keys_app_cons {V} (d1 d2 : list (string * V)) k v :
  unique_keys (d1 ++ (k, v) :: d2) = true -> dict_get k d1 = None.
Proof.
  unfold unique_keys, keys.
  induction d1 as [|[k' v'] rest IH]; simpl; [done|].
  intros [Hfresh Hu]%andb_true_iff. apply negb_true_iff in Hfresh.
  destruct (String.eqb k k') eqn:E; [|by apply IH].
  apply String.eqb_eq in E. subst k'.
  rewrite map_app, existsb_app in Hfresh. simpl in Hfresh.
  rewrite String.eqb_refl in Hfresh. simpl in Hfresh.
  by rewrite orb_true_r in Hfresh.
Qed.

Lemma existsb_keys_dict_set {V} k k' (v : V) d :
  existsb (String.eqb k) (keys (dict_set k' v d)) =
  existsb (String.eqb k) (keys d) || String.eqb k k'.
Proof.
  induction d as [|[k0 v0] rest IH]; simpl.
  - by rewrite orb_false_r.
  - destruct (String.eqb k' k0) eqn:E; simpl.
    + apply String.eqb_eq in E. subst k0.
      destruct (String.eqb k k'); simpl; [done|]. by rewrite orb_false_r.
    + rewrite IH. by rewrite orb_assoc.
Qed.

Lemma unique_keys_dict_set {V} k (v : V) d :
  unique_keys d = true -> unique_keys (dict_set k v d) = true.
Proof.
  unfold unique_keys.
  induction d as [|[k0 v0] rest IH]; simpl; [done|].
  intros [Hfresh Hu]%andb_true_iff.
  destruct (String.eqb k k0) eqn:E; simpl.
  - by rewrite Hfresh, Hu.
  - fold (keys (dict_set k v rest)). rewrite existsb_keys_dict_set.
    apply negb_true_iff in Hfresh. fold (keys rest). rewrite Hfresh. simpl.
    rewrite String.eqb_sym, E. simpl. by apply IH.
Qed.

(** *** Well-formed stores *)

Lemma wf_heap_lookup h l o :
  wf_heap h = true -> h !! l = Some o -> wf_object (length h) o = true.
Proof.
  unfold wf_heap. rewrite forallb_forall. intros Hwf Hl.
  apply Hwf. apply list_elem_of_In. by eapply list_elem_of_lookup_2.
Qed.

Lemma wf_heap_intro h :
  (forall l o, h !! l = Some o -> wf_object (length h) o = true) ->
  wf_heap h = true.
Proof.
  intros Hall. unfold wf_heap. rewrite forallb_forall. intros o Ho.
  apply list_elem_of_In, list_elem_of_lookup_1 in Ho as [l Hl]. eauto.
Qed.

Lemma forallb_below_mono {A} (f : A -> nat) n n' l :
  (n <= n')%nat ->
  forallb (fun x => (f x <? n)%nat) l = true ->
  forallb (fun x => (f x <? n')%nat) l = true.
Proof.
  intros Hle. rewrite !forallb_forall. intros Hall x Hx.
  specialize (Hall x Hx). apply Nat.ltb_lt in Hall. apply Nat.ltb_lt. lia.
Qed.

Lemma wf_object_mono n n' o :
  (n <= n')%nat -> wf_object n o = true -> wf_object n' o = true.
Proof.
  intros Hle. destruct o; simpl; try done.
  - by apply (forallb_below_mono (fun l => l)).
  - intros [Hu Hb]%andb_true_iff. rewrite Hu. simpl.
    by apply (forallb_below_mono snd n).
Qed.

Lemma wf_dict_get n items key v :
  wf_object n (ODict items) = true -> dict_get key items = Some v -> (v < n)%nat.
Proof.
  simpl. intros [_ Hb]%andb_true_iff.
  induction items as [|[k' v'] rest IH]; simpl in *; [done|].
  apply andb_true_iff in Hb as [Hv Hb].
  destruct (String.eqb key k').
  - intros [= <-]. by apply Nat.ltb_lt.
  - by apply IH.
Qed.

Lemma wf_dict_unique n items :
  wf_object n (ODict items) = true -> unique_keys items = true.
Proof. simpl. by intros [Hu _]%andb_true_iff. Qed.

Lemma wf_dict_set n items key v :
  wf_object n (ODict items) = true -> (v < n)%nat ->
  wf_object n (ODict (dict_set key v items)) = true.
Proof.
  simpl. intros [Hu Hb]%andb_true_iff Hv.
  rewrite (unique_keys_dict_set _ _ _ Hu). simpl. clear Hu.
  induction items as [|[k' v'] rest IH]; simpl in *.
  - by rewrite (proj2 (Nat.ltb_lt v n) Hv).
  - apply andb_true_iff in Hb as [Hv' Hb].
    destruct (String.eqb key k'); simpl.
    + by rewrite (proj2 (Nat.ltb_lt v n) Hv), Hb.
    + by rewrite Hv', IH.
Qed.

(** *** One round of the loop *)

Lemma merge_loop_S rec result override n i h h2 :
  merge_loop rec result override (S n) i h = Some h2 ->
  exists oitems key value h',
    h !! override = Some (ODict oitems) /\
    oitems !! i = Some (key, value) /\
    round rec result key value h h' /\
    merge_loop rec result override n (S i) h' = Some h2.
Proof.
  simpl.
  destruct (dict_items h override) as [oitems|] eqn:Eo; [|done]. simpl.
  destruct (oitems !! i) as [[key value]|] eqn:Ei; [|done]. simpl.
  destruct (dict_items h result) as [ritems|] eqn:Er; [|done]. simpl.
  apply dict_items_Some in Eo, Er.
  destruct (dict_get key ritems) as [current|] eqn:Ek.
  - destruct (is_dict h current && is_dict h value) eqn:Ed.
    + destruct (rec current value h) as [[merged h1]|] eqn:Erec; [|done]. simpl.
      destruct (setitem result key merged h1) as [h'|] eqn:Es; [|done]. simpl.
      intros Hrest. exists oitems, key, value, h'. repeat split; try done.
      by eapply round_merge.
    + destruct (setitem result key value h) as [h'|] eqn:Es; [|done]. simpl.
      intros Hrest. exists oitems, key, value, h'. repeat split; try done.
      eapply round_replace; [done| |done]. by rewrite Ek.
  - destruct (setitem result key value h) as [h'|] eqn:Es; [|done]. simpl.
    intros Hrest. exists oitems, key, value, h'. repeat split; try done.
    eapply round_replace; [done| |done]. by rewrite Ek.
Qed.

(** *** The frame of a call *)

(** A round changes [result] and nothing else that was there. *)
Lemma round_frame rec result key value h h' :
  frames rec ->
  round rec result key value h h' ->
  (length h <= length h')%nat /\
  forall l, (l < length h)%nat -> l <> result -> h' !! l = h !! l.
Proof.
  intros Hrec [ritems current merged h1 Hr Hk Hd Hcall Hset | ritems Hr Hk Hset].
  - apply Hrec in Hcall as (_ & Hlen & Hsame).
    apply setitem_Some in Hset as (items & _ & ->).
    rewrite length_insert. split; [lia|].
    intros l Hl Hne. rewrite list_lookup_insert_ne by done. by apply Hsame.
  - apply setitem_Some in Hset as (items & _ & ->).
    rewrite length_insert. split; [lia|].
    intros l Hl Hne. by rewrite list_lookup_insert_ne.
Qed.

Lemma merge_loop_frame rec result override n i h h2 :
  frames rec ->
  merge_loop rec result override n i h = Some h2 ->
  (length h <= length h2)%nat /\
  forall l, (l < length h)%nat -> l <> result -> h2 !! l = h !! l.
Proof.
  intros Hrec. revert i h. induction n as [|n IH]; intros i h Hloop.
  - injection Hloop as <-. done.
  - apply merge_loop_S in Hloop as (oitems & key & value & h' & _ & _ & Hround & Hrest).
    destruct (round_frame _ _ _ _ _ _ Hrec Hround) as [Hlen Hsame].
    destruct (IH _ _ Hrest) as [Hlen' Hsame'].
    split; [lia|]. intros l Hl Hne.
    rewrite Hsame' by (done || lia). by apply Hsame.
Qed.

Lemma deep_merge_frames fuel : frames (deep_merge fuel).
Proof.
  induction fuel as [|fuel IH]; intros base override h result h'; [done|].
  simpl.
  destruct (dict_items h base) as [bitems|]; [|done]. simpl.
  destruct (dict_items _ override) as [oitems|]; [|done]. simpl.
  destruct (merge_loop _ _ _ _ _ _) as [h2|] eqn:Hloop; [|done]. simpl.
  intros [= <- <-].
  destruct (merge_loop_frame _ _ _ _ _ _ _ IH Hloop) as [Hlen Hsame].
  rewrite length_app in Hlen. simpl in Hlen.
  split; [done|]. split; [lia|].
  intros l Hl. rewrite Hsame.
  - by apply lookup_app_l.
  - rewrite length_app. simpl. lia.
  - lia.
Qed.

(** *** Moving [Merged] between stores *)

(** [Merged] reads the arguments below [old] and the results from [new]
    on; it holds in any store that agrees there. *)
Lemma Merged_transport old_a new_a old new ha hb :
  (old <= length ha)%nat -> (new <= new_a)%nat ->
  (forall l items key v, (l < old)%nat -> ha !! l = Some (ODict items) ->
     dict_get key items = Some v -> (v < old)%nat) ->
  (forall l, (l < length ha)%nat -> (l < old)%nat \/ (new_a <= l)%nat ->
     hb !! l = ha !! l) ->
  forall b o r,
    Merged old_a new_a ha b o r -> (b < old)%nat -> (o < old)%nat ->
    Merged old new hb b o r.
Proof.
  intros Hold Hnew Hclosed Hagree b o r HM.
  induction HM as [base override result bitems oitems ritems
                     _ _ Hr Hbase Hover Hres Habs Honly Hrepl Hex _ IH].
  intros Hb Ho.
  assert (Hsame : forall l, (l < old)%nat -> hb !! l = ha !! l).
  { intros l Hl. apply Hagree; [lia | by left]. }
  assert (Hdb : forall key current, dict_get key bitems = Some current ->
                (current < old)%nat) by eauto.
  assert (Hdo : forall key value, dict_get key oitems = Some value ->
                (value < old)%nat) by eauto.
  assert (Hd : forall key value current,
             dict_get key oitems = Some value ->
             dict_get key bitems = Some current ->
             is_dict hb current && is_dict hb value =
             is_dict ha current && is_dict ha value).
  { intros key value current Hv Hc.
    by rewrite (is_dict_agree ha hb current), (is_dict_agree ha hb value)
      by (apply Hsame; eauto). }
  apply Merged_intro with bitems oitems ritems; try done.
  - lia.
  - by rewrite Hsame.
  - by rewrite Hsame.
  - rewrite Hagree; [done | by eapply lookup_lt_Some | by right].
  - intros key value current Hv Hc. rewrite (Hd _ _ _ Hv Hc). eauto.
  - intros key value current Hv Hc. rewrite (Hd _ _ _ Hv Hc). eauto.
  - intros key value current merged Hv Hc. rewrite (Hd _ _ _ Hv Hc).
    intros Hboth Hm. eapply IH; eauto.
Qed.

(** *** Rounds that go through *)

Lemma merge_loop_round rec result override n i h h' oitems key value :
  h !! override = Some (ODict oitems) ->
  oitems !! i = Some (key, value) ->
  round rec result key value h h' ->
  merge_loop rec result override (S n) i h =
  merge_loop rec result override n (S i) h'.
Proof.
  intros Ho Hi Hround. simpl.
  rewrite (proj2 (dict_items_Some _ _ _) Ho). simpl. rewrite Hi. simpl.
  destruct Hround as [ritems current merged h1 Hr Hk Hd Hcall Hset
                     | ritems Hr Hk Hset];
    rewrite (proj2 (dict_items_Some _ _ _) Hr); simpl.
  - by rewrite Hk, Hd, Hcall; simpl; rewrite Hset.
  - destruct (dict_get key ritems) as [current|].
    + by rewrite Hk, Hset.
    + by rewrite Hset.
Qed.

Lemma nesting_agree h0 h :
  wf_heap h0 = true ->
  (forall l, (l < length h0)%nat -> h !! l = h0 !! l) ->
  forall d l, (l < length h0)%nat -> nesting h d l = nesting h0 d l.
Proof.
  intros Hwf Hsame. induction d as [|d IH]; intros l Hl; simpl.
  - by rewrite (is_dict_agree h0 h l) by (by apply Hsame).
  - rewrite Hsame by done.
    destruct (h0 !! l) as [[| | | | | |items]|] eqn:El; try done.
    apply (wf_heap_lookup _ _ _ Hwf) in El. simpl in El.
    apply andb_true_iff in El as [_ Hb].
    induction items as [|[k v] rest IHr]; simpl in *; [done|].
    apply andb_true_iff in Hb as [Hv Hb]. apply Nat.ltb_lt in Hv.
    by rewrite IH, IHr.
Qed.

Lemma nesting_item h d l items key v :
  h !! l = Some (ODict items) -> nesting h (S d) l = true ->
  (key, v) ∈ items -> nesting h d v = true.
Proof.
  simpl. intros -> Hall Hin. rewrite forallb_forall in Hall.
  apply (Hall (key, v)). by apply list_elem_of_In.
Qed.

(** *** What the loop builds *)

Section Loop.

Variable rec : loc -> loc -> heap -> option (loc * heap).
Hypothesis rec_frames : frames rec.
Hypothesis rec_builds : builds rec.

(** The store the call started from, and its arguments there. *)
Variable h0 : heap.
Variables base override : loc.
Variables bitems oitems : list (string * loc).
Hypothesis wf_h0 : wf_heap h0 = true.
Hypothesis base_dict : h0 !! base = Some (ODict bitems).
Hypothesis override_dict : h0 !! override = Some (ODict oitems).

(** [result] is the object after them. *)
Abbreviation result := (length h0).

Lemma old_closed l items key v :
  h0 !! l = Some (ODict items) ->
  dict_get key items = Some v -> (v < result)%nat.
Proof.
  intros Hl Hv. eapply wf_dict_get; [|done]. by eapply wf_heap_lookup.
Qed.

(** The state of the loop once the items [done] of [override] are through. *)
Record loop_inv (done : list (string * loc)) (h : heap) (ritems : list (string * loc))
    : Prop := {
  inv_length : (result < length h)%nat;
  inv_old : forall l, (l < result)%nat -> h !! l = h0 !! l;
  inv_result : h !! result = Some (ODict ritems);
  inv_wf : wf_heap h = true;
  inv_absent : forall key, dict_get key done = None ->
    dict_get key ritems = dict_get key bitems;
  inv_only : forall key value, dict_get key done = Some value ->
    dict_get key bitems = None -> dict_get key ritems = Some value;
  inv_replaced : forall key value current, dict_get key done = Some value ->
    dict_get key bitems = Some current ->
    is_dict h0 current && is_dict h0 value = false ->
    dict_get key ritems = Some value;
  inv_merged : forall key value current, dict_get key done = Some value ->
    dict_get key bitems = Some current ->
    is_dict h0 current && is_dict h0 value = true ->
    exists merged, dict_get key ritems = Some merged /\
      Merged result (S result) h current value merged;
}.

Lemma loop_inv_start :
  loop_inv [] (h0 ++ [ODict bitems]) bitems.
Proof.
  split; try done.
  - rewrite length_app. simpl. lia.
  - intros l Hl. by apply lookup_app_l.
  - by rewrite list_lookup_middle.
  - apply wf_heap_intro. intros l o Hl. rewrite length_app. simpl.
    apply lookup_app_Some in Hl as [Hl | [_ Hl]].
    + apply wf_object_mono with result; [lia|]. by eapply wf_heap_lookup.
    + apply list_lookup_singleton_Some in Hl as [_ <-].
      apply wf_object_mono with result; [lia|]. by eapply wf_heap_lookup.
Qed.

(** Dicts among the old objects are the same dicts later on. *)
Lemma is_dict_old h l :
  (forall l, (l < result)%nat -> h !! l = h0 !! l) ->
  (l < result)%nat -> is_dict h l = is_dict h0 l.
Proof. intros Hold Hl. apply is_dict_agree. by apply Hold. Qed.

(** A round keeps the invariant, with one more item through. *)
Lemma round_inv done key value todo h h' ritems :
  oitems = done ++ (key, value) :: todo ->
  loop_inv done h ritems ->
  round rec result key value h h' ->
  exists ritems', loop_inv (done ++ [(key, value)]) h' ritems'.
Proof.
  intros Hsplit [Hlen Hold Hres Hwf Habs Honly Hrepl Hmerged] Hround.
  assert (Hfresh : dict_get key done = None).
  { apply (unique_keys_app_cons done todo key value). rewrite <- Hsplit.
    by apply (wf_dict_unique result), (wf_heap_lookup h0 override). }
  assert (Hvalue : (value < result)%nat).
  { apply (old_closed override oitems key); [done|].
    by rewrite Hsplit, dict_get_app, Hfresh; simpl; rewrite String.eqb_refl. }
  assert (Hdone : forall k,
    dict_get k (done ++ [(key, value)]) =
    match dict_get k done with
    | Some v => Some v
    | None => if String.eqb k key then Some value else None
    end).
  { intros k. rewrite dict_get_app. simpl. by destruct (String.eqb k key). }
  assert (Hwfr : wf_object (length h) (ODict ritems) = true)
    by (by eapply wf_heap_lookup).
  (* the store after the round: [h1] with [key] set to [v] in [result] *)
  assert (Hstep : exists h1 v,
    h' = <[result := ODict (dict_set key v ritems)]> h1 /\
    (length h <= length h1)%nat /\
    (forall l, (l < length h)%nat -> h1 !! l = h !! l) /\
    wf_heap h1 = true /\ (v < length h1)%nat /\
    ((v = value /\
      match dict_get key bitems with
      | Some current => is_dict h0 current && is_dict h0 value = false
      | None => True
      end) \/
     (exists current, dict_get key bitems = Some current /\
        is_dict h0 current && is_dict h0 value = true /\
        Merged (length h) (length h) h1 current value v))).
  { destruct Hround as [ritems1 current merged h1 Hr Hk Hd Hcall Hset
                       | ritems1 Hr Hk Hset].
    - rewrite Hres in Hr. injection Hr as <-.
      rewrite (Habs _ Hfresh) in Hk.
      assert (Hcur : (current < result)%nat) by (by eapply (old_closed base)).
      rewrite (is_dict_old h current), (is_dict_old h value) in Hd by done.
      destruct (rec_frames _ _ _ _ _ Hcall) as (-> & Hlen1 & Hsame1).
      destruct (rec_builds _ _ _ _ _ Hcall Hwf) as [Hwf1 HM]; [lia|].
      apply setitem_Some in Hset as (items & Hr1 & ->).
      rewrite Hsame1, Hres in Hr1 by lia. injection Hr1 as <-.
      exists h1, (length h).
      split; [done|]. split; [lia|]. split; [done|]. split; [done|].
      split; [lia|]. right. exists current. split; [done|]. by split.
    - rewrite Hres in Hr. injection Hr as <-.
      apply setitem_Some in Hset as (items & Hr1 & ->).
      rewrite Hres in Hr1. injection Hr1 as <-.
      exists h, value.
      split; [done|]. split; [lia|]. split; [done|]. split; [done|].
      split; [lia|].
      left. split; [done|]. rewrite (Habs _ Hfresh) in Hk.
      destruct (dict_get key bitems) as [current|] eqn:Hc; [|done].
      assert (Hcur : (current < result)%nat) by (by eapply (old_closed base)).
      by rewrite (is_dict_old h current), (is_dict_old h value) in Hk. }
  destruct Hstep as (h1 & v & -> & Hlen1 & Hsame1 & Hwf1 & Hv & Hcase).
  exists (dict_set key v ritems).
  assert (Hres1 : h1 !! result = Some (ODict ritems))
    by (by rewrite Hsame1).
  assert (Hget : forall k, k <> key ->
            dict_get k (dict_set key v ritems) = dict_get k ritems)
    by (intros k Hk; by apply dict_get_set_other).
  assert (Hkeep : forall b o m,
    (b < result)%nat -> (o < result)%nat ->
    Merged result (S result) h b o m ->
    Merged result (S result)
      (<[result := ODict (dict_set key v ritems)]> h1) b o m).
  { intros b o m Hb Ho HM.
    apply (Merged_transport result (S result) result (S result) h); try done; try lia.
    - intros l items k x Hl. rewrite Hold by done. by apply old_closed.
    - intros l Hl Hrange. rewrite list_lookup_insert_ne by lia. by apply Hsame1. }
  split.
  - rewrite length_insert. lia.
  - intros l Hl. rewrite list_lookup_insert_ne by lia.
    rewrite Hsame1 by lia. by apply Hold.
  - apply list_lookup_insert_eq. lia.
  - apply wf_heap_intro. intros l o. rewrite length_insert.
    destruct (decide (l = result)) as [-> | Hne].
    + rewrite list_lookup_insert_eq by lia. intros [= <-].
      apply wf_dict_set; [|done].
      by apply wf_object_mono with (length h).
    + rewrite list_lookup_insert_ne by done. by apply wf_heap_lookup.
  - intros k. rewrite Hdone. destruct (dict_get k done) eqn:Hk; [done|].
    destruct (String.eqb k key) eqn:E; [done|]. intros _.
    rewrite Hget; [by apply Habs|]. intros ->. by rewrite String.eqb_refl in E.
  - intros k x. rewrite Hdone. destruct (dict_get k done) as [y|] eqn:Hk.
    + intros [= ->] Hb. rewrite Hget; [by eapply Honly|]. by intros ->; rewrite Hfresh in Hk.
    + destruct (String.eqb k key) eqn:E; [|done].
      apply String.eqb_eq in E. subst k. intros [= <-] Hb.
      destruct Hcase as [[-> _] | (current & Hc & _)].
      * apply dict_get_set_same.
      * by rewrite Hb in Hc.
  - intros k x current. rewrite Hdone. destruct (dict_get k done) as [y|] eqn:Hk.
    + intros [= ->] Hb Hd. rewrite Hget; [by eapply Hrepl|].
      by intros ->; rewrite Hfresh in Hk.
    + destruct (String.eqb k key) eqn:E; [|done].
      apply String.eqb_eq in E. subst k. intros [= <-] Hb Hd.
      destruct Hcase as [[-> _] | (current' & Hc & Hd' & _)].
      * apply dict_get_set_same.
      * rewrite Hb in Hc. injection Hc as <-. by rewrite Hd in Hd'.
  - intros k x current. rewrite Hdone. destruct (dict_get k done) as [y|] eqn:Hk.
    + intros [= ->] Hb Hd.
      destruct (Hmerged _ _ _ Hk Hb Hd) as (m & Hm & HM).
      exists m. split.
      * rewrite Hget; [done|]. by intros ->; rewrite Hfresh in Hk.
      * apply Hkeep; [by eapply (old_closed base) | | done].
        apply (old_closed override oitems k); [done|].
        by rewrite Hsplit, dict_get_app, Hk.
    + destruct (String.eqb k key) eqn:E; [|done].
      apply String.eqb_eq in E. subst k. intros [= <-] Hb Hd.
      destruct Hcase as [[-> Hnd] | (current' & Hc & _ & HM)].
      * rewrite Hb in Hnd. by rewrite Hd in Hnd.
      * rewrite Hb in Hc. injection Hc as <-.
        exists v. split; [apply dict_get_set_same|].
        apply (Merged_transport (length h) (length h) result (S result) h1);
          try done; try lia.
        -- intros l items k x Hl. rewrite Hsame1, Hold by lia. by apply old_closed.
        -- intros l Hl Hrange. rewrite list_lookup_insert_ne by lia. done.
        -- by eapply (old_closed base).
Qed.

Lemma merge_loop_inv n : forall done todo h ritems h2,
  oitems = done ++ todo -> n = length todo ->
  loop_inv done h ritems ->
  merge_loop rec result override n (length done) h = Some h2 ->
  exists ritems', loop_inv oitems h2 ritems'.
Proof.
  induction n as [|n IH]; intros done todo h ritems h2 Hsplit Hn Hinv Hloop.
  - destruct todo; [|done]. rewrite app_nil_r in Hsplit. subst done.
    injection Hloop as <-. eauto.
  - apply merge_loop_S in Hloop
      as (oitems' & key & value & h' & Hover & Hi & Hround & Hrest).
    rewrite (inv_old _ _ _ Hinv) in Hover by (by eapply lookup_lt_Some).
    rewrite override_dict in Hover. injection Hover as <-.
    destruct todo as [|[key' value'] todo]; [done|].
    rewrite Hsplit, list_lookup_middle in Hi by done. injection Hi as -> ->.
    destruct (round_inv _ _ _ _ _ _ _ Hsplit Hinv Hround) as [ritems' Hinv'].
    apply (IH (done ++ [(key, value)]) todo h' ritems').
    + by rewrite <- app_assoc.
    + simpl in Hn. lia.
    + done.
    + rewrite length_app. simpl. by rewrite Nat.add_1_r.
Qed.

(** The loop run to its end has built the merge. *)
Lemma merge_loop_builds h2 :
  merge_loop rec result override (length oitems) 0 (h0 ++ [ODict bitems]) = Some h2 ->
  wf_heap h2 = true /\ Merged result result h2 base override result.
Proof.
  intros Hloop.
  destruct (merge_loop_inv (length oitems) [] oitems _ bitems h2
              eq_refl eq_refl loop_inv_start Hloop)
    as [ritems [Hlen Hold Hres Hwf Habs Honly Hrepl Hmerged]].
  split; [done|].
  assert (Hd : forall key value current,
             dict_get key oitems = Some value ->
             dict_get key bitems = Some current ->
             is_dict h2 current && is_dict h2 value =
             is_dict h0 current && is_dict h0 value).
  { intros key value current Hv Hc.
    rewrite (is_dict_old h2 current), (is_dict_old h2 value); try done.
    - by eapply (old_closed override).
    - by eapply (old_closed base). }
  apply Merged_intro with bitems oitems ritems; try done.
  - by eapply lookup_lt_Some.
  - by eapply lookup_lt_Some.
  - rewrite Hold; [done | by eapply lookup_lt_Some].
  - rewrite Hold; [done | by eapply lookup_lt_Some].
  - intros key value current Hv Hc. rewrite (Hd _ _ _ Hv Hc). eauto.
  - intros key value current Hv Hc. rewrite (Hd _ _ _ Hv Hc). intros Hboth.
    destruct (Hmerged _ _ _ Hv Hc Hboth) as (m & Hm & _). eauto.
  - intros key value current merged Hv Hc. rewrite (Hd _ _ _ Hv Hc).
    intros Hboth Hm.
    destruct (Hmerged _ _ _ Hv Hc Hboth) as (m & Hm' & HM).
    rewrite Hm in Hm'. injection Hm' as <-.
    apply (Merged_transport result (S result) result result h2); try done; try lia.
    + intros l items k x Hl. rewrite Hold by done. by apply old_closed.
    + by eapply (old_closed base).
    + by eapply (old_closed override).
Qed.

(** With a recursive call that returns on dicts nesting at most [d] deep,
    the loop over an [override] nesting at most [S d] deep runs to its
    end. *)
Lemma merge_loop_returns d n :
  (forall current value h,
     wf_heap h = true -> is_dict h current = true -> is_dict h value = true ->
     nesting h d value = true -> exists m h1, rec current value h = Some (m, h1)) ->
  nesting h0 (S d) override = true ->
  forall done todo h ritems,
    oitems = done ++ todo -> n = length todo ->
    loop_inv done h ritems ->
    exists h2, merge_loop rec result override n (length done) h = Some h2.
Proof.
  intros Hreturns Hnest.
  induction n as [|n IH]; intros done todo h ritems Hsplit Hn Hinv; [by eexists|].
  destruct todo as [|[key value] todo]; [done|].
  assert (Hover : h !! override = Some (ODict oitems)).
  { rewrite (inv_old _ _ _ Hinv); [done | by eapply lookup_lt_Some]. }
  assert (Hi : oitems !! length done = Some (key, value))
    by (by rewrite Hsplit, list_lookup_middle).
  assert (Hround : exists h', round rec result key value h h').
  { pose proof (inv_result _ _ _ Hinv) as Hres.
    destruct (dict_get key ritems) as [current|] eqn:Hk.
    - destruct (is_dict h current && is_dict h value) eqn:Hd.
      + apply andb_true_iff in Hd as Hboth. destruct Hboth as [Hdc Hdv].
        destruct (Hreturns current value h) as (m & h1 & Hcall); try done.
        { by apply (inv_wf _ _ _ Hinv). }
        { assert ((value < result)%nat) as Hv.
          { apply (old_closed override oitems key); [done|].
            rewrite Hsplit, dict_get_app.
            rewrite (unique_keys_app_cons done todo key value); simpl.
            - by rewrite String.eqb_refl.
            - rewrite <- Hsplit.
              by apply (wf_dict_unique result), (wf_heap_lookup h0 override). }
          rewrite (nesting_agree h0 h wf_h0 (inv_old _ _ _ Hinv)) by done.
          apply (nesting_item h0 d override oitems key); [done..|].
          rewrite Hsplit. apply elem_of_app. right. by left. }
        destruct (rec_frames _ _ _ _ _ Hcall) as (_ & Hlen1 & Hsame1).
        exists (<[result := ODict (dict_set key m ritems)]> h1).
        eapply round_merge; try done. unfold setitem.
        rewrite (proj2 (dict_items_Some h1 result ritems)); [done|].
        rewrite Hsame1; [done | by eapply lookup_lt_Some].
      + exists (<[result := ODict (dict_set key value ritems)]> h).
        eapply round_replace; [done | by rewrite Hk |].
        unfold setitem. by rewrite (proj2 (dict_items_Some h result ritems)).
    - exists (<[result := ODict (dict_set key value ritems)]> h).
      eapply round_replace; [done | by rewrite Hk |].
      unfold setitem. by rewrite (proj2 (dict_items_Some h result ritems)). }
  destruct Hround as [h' Hround].
  rewrite (merge_loop_round _ _ _ _ _ _ _ _ _ _ Hover Hi Hround).
  destruct (round_inv _ _ _ _ _ _ _ Hsplit Hinv Hround) as [ritems' Hinv'].
  replace (S (length done)) with (length (done ++ [(key, value)]))
    by (rewrite length_app; simpl; lia).
  apply (IH _ todo _ ritems'); [by rewrite <- app_assoc | simpl in Hn; lia | done].
Qed.

End Loop.

Lemma deep_merge_builds fuel : builds (deep_merge fuel).
Proof.
  induction fuel as [|fuel IH]; intros base override h result h'; [done|].
  simpl. intros Hcall Hwf Hover.
  destruct (dict_items h base) as [bitems|] eqn:Hb; [|done]. simpl in Hcall.
  destruct (dict_items _ override) as [oitems|] eqn:Ho; [|done]. simpl in Hcall.
  destruct (merge_loop _ _ _ _ _ _) as [h2|] eqn:Hloop; [|done].
  injection Hcall as <- <-.
  apply dict_items_Some in Hb, Ho. rewrite lookup_app_l in Ho by done.
  by apply (merge_loop_builds (deep_merge fuel) (deep_merge_frames fuel) IH
              h base override bitems oitems).
Qed.

(** The object at [result] stays a dict through the loop. *)
Lemma merge_loop_result_dict rec result override n i h h2 :
  frames rec ->
  merge_loop rec result override n i h = Some h2 ->
  is_dict h result = true -> is_dict h2 result = true.
Proof.
  intros Hrec. revert i h. induction n as [|n IH]; intros i h Hloop Hd.
  - by injection Hloop as <-.
  - apply merge_loop_S in Hloop as (oitems & key & value & h' & _ & _ & Hround & Hrest).
    apply (IH _ _ Hrest).
    assert (forall v h1, setitem result key v h1 = Some h' -> is_dict h' result = true)
      as Hset.
    { intros v h1 (items & Hr & ->)%setitem_Some. unfold is_dict.
      rewrite list_lookup_insert_eq; [done | by eapply lookup_lt_Some]. }
    destruct Hround; eauto.
Qed.

(** A value read in a store is read again in any store that keeps its
    objects. *)
Lemma read_preserved h h' :
  (forall l o, h !! l = Some o -> h' !! l = Some o) ->
  forall fuel l v, read fuel h l = Some v -> read fuel h' l = Some v.
Proof.
  intros Hkeep. induction fuel as [|fuel IH]; intros l v; [done|].
  simpl. destruct (h !! l) as [o|] eqn:Hl; [|done].
  rewrite (Hkeep _ _ Hl). simpl.
  destruct o as [| | | | |items|items]; try done.
  - destruct (mapM (read fuel h) items) as [vs|] eqn:Hvs; [|done].
    apply mapM_Some in Hvs.
    assert (mapM (read fuel h') items = Some vs) as ->; [|done].
    apply mapM_Some. eapply Forall2_impl; [done|]. eauto.
  - destruct (mapM _ items) as [vs|] eqn:Hvs; [|done].
    apply mapM_Some in Hvs.
    assert (mapM (fun kv => v ← read fuel h' (snd kv); Some (fst kv, v)) items
            = Some vs) as ->; [|done].
    apply mapM_Some. eapply Forall2_impl; [done|].
    intros [k x] [k' y]. simpl.
    destruct (read fuel h x) as [v'|] eqn:Hx; [|done].
    by rewrite (IH _ _ Hx).
Qed.

(** The model returns: on a well-formed store, [deep_merge] with fuel [d]
    returns for every pair of dicts whose [override] nests at most [d]
    deep. *)
Lemma deep_merge_returns d : forall base override h,
  wf_heap h = true -> is_dict h base = true -> is_dict h override = true ->
  nesting h d override = true ->
  exists result h', deep_merge d base override h = Some (result, h').
Proof.
  induction d as [|d IH]; intros base override h Hwf Hb Ho Hnest.
  - simpl in Hnest. by rewrite Ho in Hnest.
  - apply is_dict_true in Hb as [bitems Hb]. apply is_dict_true in Ho as [oitems Ho].
    simpl. rewrite (proj2 (dict_items_Some _ _ _) Hb). simpl.
    rewrite (proj2 (dict_items_Some (h ++ [ODict bitems]) override oitems))
      by (by apply lookup_app_l_Some).
    simpl.
    destruct (merge_loop_returns (deep_merge d) (deep_merge_frames d)
                (deep_merge_builds d) h base override bitems oitems Hwf Hb Ho
                d (length oitems) IH Hnest [] oitems _ bitems eq_refl eq_refl
                (loop_inv_start h base bitems Hwf Hb))
      as [h2 Hloop].
    simpl in Hloop. rewrite Hloop. simpl. eauto.
Qed.

(** C10. A call of [deep_merge] that returns has changed no object of the
    store it was started in, so that [base], [override] and everything
    reachable from them read as they did before.  Its result is a dict that
    was not there before; and in a well-formed store the result is the
    merge of [base] and [override] with, wherever two dicts were merged, a
    dict that was not there before. *)
Theorem deep_merge_frame fuel base override h result h' :
  deep_merge fuel base override h = Some (result, h') ->
  (forall l o, h !! l = Some o -> h' !! l = Some o) /\
  (forall depth l v, read depth h l = Some v -> read depth h' l = Some v) /\
  h !! result = None /\
  is_dict h' result = true /\
  (wf_heap h = true -> is_dict h override = true ->
   Merged (length h) (length h) h' base override result).
Proof.
  intros Hcall.
  destruct (deep_merge_frames fuel _ _ _ _ _ Hcall) as (-> & Hlen & Hsame).
  assert (Hkeep : forall l o, h !! l = Some o -> h' !! l = Some o).
  { intros l o Hl. rewrite Hsame; [done | by eapply lookup_lt_Some]. }
  split; [done|]. split; [by apply read_preserved|]. split; [|split].
  - by apply lookup_ge_None.
  - destruct fuel as [|fuel]; [done|]. simpl in Hcall.
    destruct (dict_items h base) as [bitems|]; [|done]. simpl in Hcall.
    destruct (dict_items _ override) as [oitems|]; [|done]. simpl in Hcall.
    destruct (merge_loop _ _ _ _ _ _) as [h2|] eqn:Hloop; [|done].
    injection Hcall as <-.
    apply (merge_loop_result_dict _ _ _ _ _ _ _ (deep_merge_frames fuel) Hloop).
    unfold is_dict. by rewrite list_lookup_middle.
  - intros Hwf [items Hover]%is_dict_true.
    apply (deep_merge_builds fuel _ _ _ _ _ Hcall Hwf).
    by eapply lookup_lt_Some.
Qed.

Lemma deep_merge_frame_witness :
  (forall l o, two_docs !! l = Some o -> merged_docs !! l = Some o) /\
  (forall depth l v, read depth two_docs l = Some v -> read depth merged_docs l = Some v) /\
  two_docs !! 7%nat = None /\
  is_dict merged_docs 7 = true /\
  Merged 7 7 merged_docs 3 6 7.
Proof.
  destruct (deep_merge_frame 5 3 6 two_docs 7 merged_docs eq_refl)
    as (Hsame & Hread & Hnew & Hdict & Hmerged).
  split; [done|]. split; [done|]. split; [done|]. split; [done|].
  by apply Hmerged.
Defined.

(** The two documents and their merge, read from the store after the call,
    against [Config.deep_merge] on the values. *)
Example read_merged_docs :
  exists base override merged,
    read 3 merged_docs 3 = Some (VDict base) /\
    read 3 merged_docs 6 = Some (VDict override) /\
    read 3 merged_docs 7 = Some (VDict merged) /\
    merged = Config.deep_merge base override.
Proof. do 3 eexists. repeat split. Qed.

Example deep_merge_two_docs :
  deep_merge 2 3 6 two_docs = Some (7%nat, merged_docs) /\
  deep_merge 1 3 6 two_docs = None.
Proof. split; reflexivity. Qed.

End Heap.

(* ===================================================================== *)
(** ** The health route *)
(* ===================================================================== *)

Module Health.
Import Py Config.

(** What [requests.get(url, timeout=5)] does: it returns a response with a
    status code, or raises a [requests.RequestException] (DNS failure,
    refused connection, timeout, a URL without scheme), or raises an
    exception that is no [RequestException]: urllib3's
    [LocationParseError], which [requests] passes on as it is for a host
    name with an empty label, as in [http://a..b/]. *)
Inductive reply : Type :=
| Response (status_code : Z)
| RequestException
| HostNotParsed.

(** What one run of the [try] block observes of the outside: the two
    readings of [time.time()] (seconds, as rationals) and the network. *)
Record network : Type := {
  clock_before : Q;
  requests_get : value -> reply;
  clock_after : Q;
}.

(** [int(x)] on a float: truncation toward zero.  The readings are
    rationals here and [(t1 - t0) * 1000] is computed exactly; the code
    computes it in binary floating point, and where the exact product lies
    within a rounding error of a whole number the code's integer can be
    the next one. *)
Definition int_of (x : Q) : Z := Z.quot (Qnum x) (Z.pos (Qden x)).

(** The body and status code Flask sends. *)
Record response : Type := {
  body : dict;
  status : Z;
}.

(** [jsonify(d)] alone is a 200, [jsonify(d), code] sets the code. *)
Definition jsonify (d : dict) : response := {| body := d; status := 200 |}.
Definition with_status (r : response) (code : Z) : response :=
  {| body := body r; status := code |}.

(** [key in container] *)
Definition contains (container : value) (key : string) : outcome bool :=
  match container with
  | VDict d => Ok (match dict_get key d with Some _ => true | None => false end)
  | VList l =>
      Ok (existsb (fun x => match x with VStr s => String.eqb s key | _ => false end) l)
  | VStr s => Ok (match String.index 0 key s with Some _ => true | None => false end)
  | _ => Raised TypeError
  end.

(** [container[key]] for a string [key]. *)
Definition subscript (container : value) (key : string) : outcome value :=
  match container with
  | VDict d => match dict_get key d with Some v => Ok v | None => Raised KeyError end
  | _ => Raised TypeError
  end.

(** app.py:56-67, the [try] block; an exception that its one handler does
    not name leaves it. *)
Definition probe (net : network) (url : value) : outcome response :=
  let start := clock_before net in
  match requests_get net url with
  | Response status_code =>
      let latency_ms := int_of ((clock_after net - start) * 1000)%Q in
      if (status_code <? 500)%Z
      then Ok (jsonify [("status", VStr "up"); ("latency_ms", VInt latency_ms)])
      else Ok (jsonify [("status", VStr "down"); ("latency_ms", VInt latency_ms)])
  | RequestException =>
      Ok (jsonify [("status", VStr "down"); ("latency_ms", VNone)])
  | HostNotParsed => Raised LocationParseError
  end.

(** app.py:46 [health_check(service_id)]; an exception that leaves the
    handler is [Raised]. *)
Definition health_check (net : network) (config_toml config_local_toml : document)
    (service_id : string) : outcome response :=
  obind (load_config config_toml config_local_toml) (fun config =>
  obind (py_get (VDict config) "services" (VDict [])) (fun services =>
  obind (contains services service_id) (fun found =>
  if negb found then
    Ok (with_status
          (jsonify [("status", VStr "unknown"); ("error", VStr "Service not found")])
          404)
  else
    obind (subscript services service_id) (fun service =>
    obind (py_get service "url" (VStr "")) (fun url =>
    probe net url))))).

(** The services table of a loaded configuration. *)
Definition services_of (config : dict) : value :=
  match dict_get "services" config with Some x => x | None => VDict [] end.

Definition not_found : response :=
  {| body := [("status", VStr "unknown"); ("error", VStr "Service not found")];
     status := 404 |}.

(** The wall clock set back by five seconds while a request was under way. *)
Definition clock_set_back : network :=
  {| clock_before := 1700000010;
     requests_get := fun _ => Response 200;
     clock_after := 1700000005 |}.

(** A request that took 42.7 ms, answered 503 for the git service. *)
Definition lan : network :=
  {| clock_before := 1700000000;
     requests_get := fun url =>
       match url with
       | VStr "http://wiki.lan" => Response 200
       | VStr "http://git.lan" => Response 503
       | VStr "http://a..b/" => HostNotParsed
       | _ => RequestException
       end;
     clock_after := 17000000000427 # 10000 |}.

(** A configuration in which [git] is given as a bare URL, not as a table,
    and one service has a host name with an empty label. *)
Definition bare_url_doc : dict :=
  [ ("services", VDict [("wiki", VDict [("url", VStr "http://wiki.lan")]);
                        ("git", VStr "http://git.lan");
                        ("odd", VDict [("url", VStr "http://a..b/")])]) ].

(** *** Latency *)

Lemma int_of_nonneg (x : Q) : (0 <= x)%Q -> 0 <= int_of x.
Proof.
  unfold Qle, int_of. simpl. intros H.
  apply Z.quot_pos; lia.
Qed.

Lemma elapsed_nonneg (t0 t1 : Q) :
  (t0 <= t1)%Q -> 0 <= int_of ((t1 - t0) * 1000)%Q.
Proof.
  intros H. apply int_of_nonneg.
  apply Qmult_le_0_compat; [|done].
  by apply (proj1 (Qle_minus_iff t0 t1)).
Qed.

(** C2 (amended). A response with a status code below 500 is reported up
    and one with 500 or above down, in both cases with the integer latency
    [int((t1 - t0) * 1000)] of the two clock readings, which is non-negative
    provided the reading after the request is not earlier than the one
    before it; a [RequestException] is reported down with [latency_ms] set
    to [None]. *)
Theorem probe_classification (net : network) (url : value) :
  let ms := int_of ((clock_after net - clock_before net) * 1000)%Q in
  (forall code, requests_get net url = Response code -> code < 500 ->
     probe net url =
     Ok (jsonify [("status", VStr "up"); ("latency_ms", VInt ms)])) /\
  (forall code, requests_get net url = Response code -> 500 <= code ->
     probe net url =
     Ok (jsonify [("status", VStr "down"); ("latency_ms", VInt ms)])) /\
  (requests_get net url = RequestException ->
     probe net url =
     Ok (jsonify [("status", VStr "down"); ("latency_ms", VNone)])) /\
  ((clock_before net <= clock_after net)%Q -> 0 <= ms).
Proof.
  unfold probe. split; [|split; [|split]].
  - intros code -> Hlt. by rewrite (proj2 (Z.ltb_lt code 500) Hlt).
  - intros code -> Hge. by rewrite (proj2 (Z.ltb_ge code 500) Hge).
  - by intros ->.
  - apply elapsed_nonneg.
Qed.

Lemma probe_classification_witness :
  probe lan (VStr "http://wiki.lan") =
    Ok (jsonify [("status", VStr "up"); ("latency_ms", VInt 42)]) /\
  probe lan (VStr "http://git.lan") =
    Ok (jsonify [("status", VStr "down"); ("latency_ms", VInt 42)]) /\
  probe lan (VStr "") =
    Ok (jsonify [("status", VStr "down"); ("latency_ms", VNone)]) /\
  0 <= int_of ((clock_after lan - clock_before lan) * 1000)%Q.
Proof.
  split; [|split; [|split]].
  - apply (proj1 (probe_classification lan (VStr "http://wiki.lan")) 200);
      [reflexivity | lia].
  - apply (proj1 (proj2 (probe_classification lan (VStr "http://git.lan"))) 503);
      [reflexivity | lia].
  - apply (proj1 (proj2 (proj2 (probe_classification lan (VStr ""))))).
    reflexivity.
  - apply (proj2 (proj2 (proj2 (probe_classification lan (VStr ""))))).
    vm_compute. discriminate.
Defined.

Example probe_lan :
  probe lan (VStr "http://wiki.lan") =
    Ok (jsonify [("status", VStr "up"); ("latency_ms", VInt 42)]) /\
  probe lan (VStr "http://git.lan") =
    Ok (jsonify [("status", VStr "down"); ("latency_ms", VInt 42)]) /\
  probe lan (VStr "") =
    Ok (jsonify [("status", VStr "down"); ("latency_ms", VNone)]) /\
  probe lan (VStr "http://a..b/") = Raised LocationParseError.
Proof. repeat split. Qed.

(** C2 as stated fails: nothing keeps [time.time()] from reading less the
    second time, and the latency reported is then negative. *)
Lemma probe_negative_latency :
  requests_get clock_set_back (VStr "http://wiki.lan") = Response 200 /\
  probe clock_set_back (VStr "http://wiki.lan") =
    Ok (jsonify [("status", VStr "up"); ("latency_ms", VInt (-5000))]) /\
  ~ (exists ms, 0 <= ms /\
       probe clock_set_back (VStr "http://wiki.lan") =
         Ok (jsonify [("status", VStr "up"); ("latency_ms", VInt ms)])).
Proof.
  repeat split. intros (ms & Hms & E). vm_compute in E.
  injection E as E. lia.
Qed.

(** *** The route *)

Lemma health_check_loaded net config_toml config_local_toml config services service_id :
  load_config config_toml config_local_toml = Ok config ->
  services_of config = VDict services ->
  health_check net config_toml config_local_toml service_id =
  match dict_get service_id services with
  | None => Ok not_found
  | Some service =>
      obind (py_get service "url" (VStr "")) (fun url => probe net url)
  end.
Proof.
  unfold health_check, services_of. intros -> Hs. simpl. rewrite Hs. simpl.
  by destruct (dict_get service_id services).
Qed.

Lemma probe_status net url r : probe net url = Ok r -> status r = 200.
Proof.
  unfold probe. destruct (requests_get net url); [| |done].
  - by destruct (_ <? _)%Z; intros [= <-].
  - by intros [= <-].
Qed.

(** The [try] block returns unless [requests.get] raises what the handler
    does not name, and then that is what it raises. *)
Lemma probe_returns net url :
  requests_get net url <> HostNotParsed -> exists r, probe net url = Ok r.
Proof.
  unfold probe. destruct (requests_get net url); [| |done]; intros _.
  - destruct (_ <? _)%Z; eauto.
  - eauto.
Qed.

Lemma probe_raises net url e :
  probe net url = Raised e ->
  requests_get net url = HostNotParsed /\ e = LocationParseError.
Proof.
  unfold probe. destruct (requests_get net url); [| |by intros [= <-]].
  - by destruct (_ <? _)%Z.
  - done.
Qed.

(** C3 (amended). Over a loaded configuration whose [services] is a table:
    an id that is not a key is answered 404 with [status: unknown] and the
    error text; an id that is the key of a service table is answered with
    what the probe of its [url] gives, which is a 200 with the probe result,
    whatever the probe found, whenever [requests.get] returns a response or
    raises a [RequestException]; and a 404 is answered for no id that is a
    key. *)
Theorem health_check_spec net config_toml config_local_toml config services service_id :
  load_config config_toml config_local_toml = Ok config ->
  services_of config = VDict services ->
  (dict_get service_id services = None ->
     health_check net config_toml config_local_toml service_id =
     Ok {| body := [("status", VStr "unknown"); ("error", VStr "Service not found")];
           status := 404 |}) /\
  (forall service, dict_get service_id services = Some (VDict service) ->
     exists url,
       py_get (VDict service) "url" (VStr "") = Ok url /\
       health_check net config_toml config_local_toml service_id = probe net url /\
       (requests_get net url <> HostNotParsed ->
        exists r, probe net url = Ok r /\ status r = 200)) /\
  (forall r, health_check net config_toml config_local_toml service_id = Ok r ->
     status r = 404 -> dict_get service_id services = None).
Proof.
  intros Hload Hs.
  pose proof (health_check_loaded net _ _ _ _ service_id Hload Hs) as E.
  split; [|split].
  - intros Hk. by rewrite E, Hk.
  - intros service Hk. rewrite E, Hk. simpl. eexists.
    split; [done|]. split; [done|].
    intros Hreply. destruct (probe_returns _ _ Hreply) as (r & Hr).
    exists r. split; [done|]. by eapply probe_status.
  - intros r Hr H404. rewrite E in Hr.
    destruct (dict_get service_id services) as [service|]; [|done].
    destruct service; try discriminate. simpl in Hr.
    apply probe_status in Hr. rewrite Hr in H404. discriminate.
Qed.

Lemma health_check_spec_witness :
  health_check lan (Some base_doc) (Some local_doc) "does-not-exist" =
    Ok {| body := [("status", VStr "unknown"); ("error", VStr "Service not found")];
          status := 404 |} /\
  exists url r,
    py_get (VDict [("url", VStr "http://git.lan")]) "url" (VStr "") = Ok url /\
    health_check lan (Some base_doc) (Some local_doc) "git" = probe lan url /\
    probe lan url = Ok r /\ status r = 200.
Proof.
  split.
  - apply (proj1 (health_check_spec lan (Some base_doc) (Some local_doc)
                    _ _ "does-not-exist" eq_refl eq_refl)).
    reflexivity.
  - destruct (proj1 (proj2 (health_check_spec lan (Some base_doc) (Some local_doc)
                              _ _ "git" eq_refl eq_refl))
                [("url", VStr "http://git.lan")] eq_refl)
      as (url & Hurl & Hroute & Hprobe).
    destruct Hprobe as (r & Hr & H200).
    + injection Hurl as <-. discriminate.
    + by exists url, r.
Defined.

(** C3 as stated fails: an id that is a key of the services table, but whose
    entry is no table, is not answered 200; [service.get] raises and the
    handler returns no response. *)
Lemma health_check_entry_not_a_table :
  services_of bare_url_doc =
    VDict [("wiki", VDict [("url", VStr "http://wiki.lan")]);
           ("git", VStr "http://git.lan");
           ("odd", VDict [("url", VStr "http://a..b/")])] /\
  dict_get "git" [("wiki", VDict [("url", VStr "http://wiki.lan")]);
                  ("git", VStr "http://git.lan");
                  ("odd", VDict [("url", VStr "http://a..b/")])]
    = Some (VStr "http://git.lan") /\
  health_check lan (Some bare_url_doc) None "git" = Raised AttributeError /\
  ~ (exists r, health_check lan (Some bare_url_doc) None "git" = Ok r /\
               status r = 200).
Proof.
  split; [reflexivity|]. split; [reflexivity|]. split; [reflexivity|].
  intros (r & Hr & _). discriminate.
Qed.

Example health_check_docs :
  health_check lan (Some base_doc) (Some local_doc) "git" =
    Ok {| body := [("status", VStr "down"); ("latency_ms", VInt 42)]; status := 200 |} /\
  health_check lan (Some base_doc) (Some local_doc) "wiki" =
    Ok {| body := [("status", VStr "up"); ("latency_ms", VInt 42)]; status := 200 |} /\
  health_check lan (Some base_doc) None "does-not-exist" = Ok not_found /\
  health_check lan (Some base_doc) None "git" = Ok not_found /\
  health_check lan (Some bare_url_doc) None "odd" = Raised LocationParseError.
Proof. repeat split. Qed.

End Health.

(* ===================================================================== *)
(** ** The daemon controller *)
(* ===================================================================== *)

Module Daemon.
Import Py.

(** The second argument of [os.kill]: [0] probes without signalling. *)
Inductive signal : Type := SIG0 | SIGTERM | SIGKILL.

(** What [os.kill(pid, sig)] meets at a [pid] it can pass on to the
    operating system: a process it may signal, no process
    ([ProcessLookupError]), or a process it may not signal
    ([PermissionError]). *)
Inductive liveness : Type := Alive | Gone | Foreign.

(** The lines the script prints; [pid] is what the f-string interpolates. *)
Inductive message : Type :=
| AlreadyRunning (pid : Z)   (* Server already running (PID: {pid}) *)
| Started (pid : Z)          (* Server started (PID: {pid}) *)
| StartedNoPid               (* Server started but PID file not found *)
| FailedToStart              (* Failed to start server *)
| NotRunning                 (* Server is not running *)
| Stopping (pid : Z)         (* Stopping server (PID: {pid})... *)
| ServerStopped              (* Server stopped *)
| Forcing                    (* Server did not stop gracefully, forcing... *)
| Killed                     (* Server killed *)
| WasNotRunning              (* Server was not running *)
| IsRunning (pid : Z).       (* Server is running (PID: {pid}) *)

(** What the script does to the outside, in order. *)
Inductive event : Type :=
| Kill (pid : Z) (sig : signal)   (* os.kill(pid, sig) *)
| Unlink                          (* PID_FILE.unlink(missing_ok=True) *)
| Run                             (* subprocess.run(cmd, cwd=BASE_DIR) *)
| Sleep (ms : Z)                  (* time.sleep(ms / 1000) *)
| Print (m : message).

(** The state the script works on: the text of the PID file ([None]: no
    file), the number of calls into the operating system made so far, and
    the events so far. *)
Record world : Type := {
  pid_file : option string;
  clock : nat;
  trace : list event;
}.

(** The outside, free to behave in any way: what [os.kill] meets at each
    call, what [subprocess.run] returns, and what the PID file holds once a
    blocking call ([subprocess.run], [time.sleep]) is over, the daemon
    writing its PID file on start and removing it on exit. *)
Record environment : Type := {
  process : nat -> Z -> liveness;
  returncode : nat -> Z;
  pid_file_after : nat -> option string -> option string;
}.

(** A statement: it changes the world and returns or raises. *)
Definition M (A : Type) : Type := world -> outcome A * world.

Definition ret {A} (a : A) : M A := fun w => (Ok a, w).

Definition raise {A} (e : exn) : M A := fun w => (Raised e, w).

Definition bind {A B} (m : M A) (k : A -> M B) : M B := fun w =>
  match m w with
  | (Ok a, w') => k a w'
  | (Raised e, w') => (Raised e, w')
  end.

(** [try: body / except handled: handler] *)
Definition try_except {A} (body : M A) (handled : exn -> bool) (handler : M A) : M A :=
  fun w =>
    match body w with
    | (Ok a, w') => (Ok a, w')
    | (Raised e, w') => if handled e then handler w' else (Raised e, w')
    end.

Declare Scope daemon_scope.
Delimit Scope daemon_scope with daemon.
Notation "x <~ m ;; k" := (bind m (fun x => k))
  (at level 91, m at next level, right associativity) : daemon_scope.
Notation "m ;;; k" := (bind m (fun _ => k))
  (at level 91, right associativity) : daemon_scope.
#[local] Open Scope daemon_scope.

Definition log (e : event) (w : world) : world :=
  {| pid_file := pid_file w; clock := clock w; trace := trace w ++ [e] |}.

Definition print (m : message) : M unit := fun w => (Ok tt, log (Print m) w).

(** [PID_FILE.unlink(missing_ok=True)] *)
Definition unlink : M unit := fun w =>
  (Ok tt, {| pid_file := None; clock := clock w; trace := trace w ++ [Unlink] |}).

(** [PID_FILE.exists()] and [PID_FILE.read_text()] *)
Definition exists_ : M bool := fun w =>
  (Ok (match pid_file w with Some _ => true | None => false end), w).

Definition read_text : M string := fun w =>
  match pid_file w with
  | Some text => (Ok text, w)
  | None => (Raised FileNotFoundError, w)
  end.

(** [if pid:] for [pid : int | None]: taken for an int other than 0. *)
Definition truthy (pid : option Z) : option Z :=
  match pid with
  | Some p => if (p =? 0)%Z then None else Some p
  | None => None
  end.

(** [os.kill] takes its [pid] as a C [int] ([pid_t]): for a Python int
    outside that range it raises [OverflowError], and the operating system
    is not asked. *)
Definition c_int (pid : Z) : bool :=
  (-2147483648 <=? pid)%Z && (pid <=? 2147483647)%Z.

Definition caught_by_get_pid (e : exn) : bool :=
  match e with ValueError | ProcessLookupError | PermissionError => true | _ => false end.

Definition is_ProcessLookupError (e : exn) : bool :=
  match e with ProcessLookupError => true | _ => false end.

Section Controller.

(** [int(text.strip())]: the integer a text denotes, [None] for a
    [ValueError]. *)
Variable int_strip : string -> option Z.

Variable env : environment.

Definition int_ (text : string) : M Z :=
  match int_strip text with
  | Some n => ret n
  | None => raise ValueError
  end.

Definition os_kill (pid : Z) (sig : signal) : M unit := fun w =>
  if c_int pid then
    let w' := {| pid_file := pid_file w; clock := S (clock w);
                 trace := trace w ++ [Kill pid sig] |} in
    match process env (clock w) pid with
    | Alive => (Ok tt, w')
    | Gone => (Raised ProcessLookupError, w')
    | Foreign => (Raised PermissionError, w')
    end
  else (Raised OverflowError, w).

Definition sleep (ms : Z) : M unit := fun w =>
  (Ok tt, {| pid_file := pid_file_after env (clock w) (pid_file w);
             clock := S (clock w);
             trace := trace w ++ [Sleep ms] |}).

(** [subprocess.run(cmd, cwd=BASE_DIR).returncode] *)
Definition subprocess_run : M Z := fun w =>
  (Ok (returncode env (clock w)),
   {| pid_file := pid_file_after env (clock w) (pid_file w);
      clock := S (clock w);
      trace := trace w ++ [Run] |}).

(** server.py:22 [get_pid] *)
Definition get_pid : M (option Z) :=
  present <~ exists_ ;;
  if negb present then ret None
  else
    try_except
      (text <~ read_text ;;
       pid <~ int_ text ;;
       os_kill pid SIG0 ;;;
       ret (Some pid))
      caught_by_get_pid
      (unlink ;;; ret None).

(** server.py:37 [start] *)
Definition start : M Z :=
  pid <~ get_pid ;;
  match truthy pid with
  | Some pid => print (AlreadyRunning pid) ;;; ret 1
  | None =>
      result <~ subprocess_run ;;
      if (result =? 0)%Z then
        sleep 500 ;;;
        pid <~ get_pid ;;
        match truthy pid with
        | Some pid => print (Started pid) ;;; ret 0
        | None => print StartedNoPid ;;; ret 1
        end
      else
        print FailedToStart ;;; ret result
  end.

(** server.py:89-96, [for _ in range(n)]: [Some code] when the body
    returned [code], [None] when the loop ran out. *)
Fixpoint wait_loop (pid : Z) (n : nat) : M (option Z) :=
  match n with
  | O => ret None
  | S n' =>
      sleep 1000 ;;;
      returned <~ try_except
                    (os_kill pid SIG0 ;;; ret None)
                    is_ProcessLookupError
                    (unlink ;;; print ServerStopped ;;; ret (Some 0)) ;;
      match returned with
      | Some code => ret (Some code)
      | None => wait_loop pid n'
      end
  end.

(** server.py:74 [stop] *)
Definition stop : M Z :=
  pid <~ get_pid ;;
  match truthy pid with
  | None => print NotRunning ;;; ret 1
  | Some pid =>
      try_except
        (os_kill pid SIGTERM ;;;
         print (Stopping pid) ;;;
         returned <~ wait_loop pid 30 ;;
         match returned with
         | Some code => ret code
         | None =>
             print Forcing ;;;
             os_kill pid SIGKILL ;;;
             unlink ;;;
             print Killed ;;;
             ret 0
         end)
        is_ProcessLookupError
        (unlink ;;; print WasNotRunning ;;; ret 0)
  end.

(** server.py:110 [restart] *)
Definition restart : M Z :=
  pid <~ get_pid ;;
  match truthy pid with
  | Some _ => stop ;;; ret tt
  | None => ret tt
  end ;;;
  start.

(** server.py:118 [status] *)
Definition status : M Z :=
  pid <~ get_pid ;;
  match truthy pid with
  | Some pid => print (IsRunning pid) ;;; ret 0
  | None => print NotRunning ;;; ret 1
  end.

(** server.py:137 [commands] *)
Definition commands : list (string * M Z) :=
  [ ("start", start); ("stop", stop); ("restart", restart); ("status", status) ].

(** *** States of the daemon *)

(** Running: the PID file names a live process.  ([0] names no process, and
    [if pid:] takes it for [None]; a process id fits a C [int].) *)
Definition Running (w : world) (pid : Z) : Prop :=
  exists text,
    pid_file w = Some text /\ int_strip text = Some pid /\
    pid <> 0 /\ c_int pid = true /\ process env (clock w) pid = Alive.

(** Stale: the PID file names an id whose zero-signal probe fails, with
    [ProcessLookupError] or [PermissionError]. *)
Definition Stale (w : world) (pid : Z) : Prop :=
  exists text,
    pid_file w = Some text /\ int_strip text = Some pid /\
    c_int pid = true /\ process env (clock w) pid <> Alive.

(** Stopped: no PID file, or one that is unreadable or stale. *)
Definition Stopped (w : world) : Prop :=
  pid_file w = None \/
  (exists text, pid_file w = Some text /\ int_strip text = None) \/
  (exists pid, Stale w pid).

(** The world once [get_pid] has probed a live [pid]. *)
Definition probed (pid : Z) (w : world) : world :=
  {| pid_file := pid_file w; clock := S (clock w);
     trace := trace w ++ [Kill pid SIG0] |}.

(** The world once [get_pid] has probed a stale [pid] and removed the file. *)
Definition cleaned (pid : Z) (w : world) : world :=
  {| pid_file := None; clock := S (clock w);
     trace := trace w ++ [Kill pid SIG0; Unlink] |}.

(** [k] rounds of the wait loop that found the process alive. *)
Definition polls (pid : Z) (k : nat) : list event :=
  concat (replicate k [Sleep 1000; Kill pid SIG0]).

Fixpoint after_polls (pid : Z) (k : nat) (w : world) : world :=
  match k with
  | O => w
  | S k' =>
      after_polls pid k'
        {| pid_file := pid_file_after env (clock w) (pid_file w);
           clock := S (S (clock w));
           trace := trace w ++ [Sleep 1000; Kill pid SIG0] |}
  end.

End Controller.

(** *** Sample environments *)

(** White space as [str.strip] and [int] take it, among the ASCII
    characters: tab to carriage return, the separators 28 to 31, space. *)
Definition is_space (c : Ascii.ascii) : bool :=
  let n := Ascii.nat_of_ascii c in
  ((9 <=? n)%nat && (n <=? 13)%nat) || ((28 <=? n)%nat && (n <=? 32)%nat).

Definition is_digit (c : Ascii.ascii) : bool :=
  let n := Ascii.nat_of_ascii c in (48 <=? n)%nat && (n <=? 57)%nat.

Fixpoint lstrip (s : string) : string :=
  match s with
  | String c rest => if is_space c then lstrip rest else s
  | EmptyString => EmptyString
  end.

Definition strip (s : string) : string :=
  String.rev (lstrip (String.rev (lstrip s))).

(** The digits of a decimal literal without its underscores, which stand
    singly between two digits; [None] for anything else. *)
Fixpoint digits (s : string) (after_digit : bool) : option string :=
  match s with
  | EmptyString => if after_digit then Some EmptyString else None
  | String c rest =>
      if is_digit c then option_map (String c) (digits rest true)
      else if Ascii.eqb c "_"%char && after_digit then digits rest false
      else None
  end.

(** [int(text.strip())] on ASCII text: white space at both ends, an
    optional sign, decimal digits.  (Python also takes decimal digits of
    other scripts, and from version 3.11 refuses more than 4300 digits.) *)
Definition decimal (text : string) : option Z :=
  let s := strip text in
  let '(negative, literal) :=
    match s with
    | String "-"%char rest => (true, rest)
    | String "+"%char rest => (false, rest)
    | _ => (false, s)
    end in
  d ← digits literal false;
  n ← NilZero.uint_of_string d;
  Some (if negative : bool then - Z.of_uint n else Z.of_uint n).

Example decimal_texts :
  decimal "4242" = Some 4242 /\
  decimal " 4242
" = Some 4242 /\
  decimal "-17" = Some (-17) /\
  decimal "+0017" = Some 17 /\
  decimal "4_242" = Some 4242 /\
  decimal "2147483648" = Some 2147483648 /\
  decimal "" = None /\
  decimal "42 42" = None /\
  decimal "4__2" = None /\
  decimal "42_" = None /\
  decimal "- 42" = None /\
  decimal "0x10" = None.
Proof. repeat split. Qed.

(** A PID file naming process 4242, before any call. *)
Definition recorded : world :=
  {| pid_file := Some "4242"; clock := 0; trace := [] |}.

Definition no_pid_file : world :=
  {| pid_file := None; clock := 0; trace := [] |}.

(** Process 4242 never exits. *)
Definition stubborn : environment :=
  {| process := fun _ pid => if (pid =? 4242)%Z then Alive else Gone;
     returncode := fun _ => 0;
     pid_file_after := fun _ file => file |}.

(** Process 4242 is gone from the 6th call on and takes its PID file with
    it: alive for the probe, the signal and the first poll (calls 0, 1
    and 3), gone at the second poll (call 5). *)
Definition obedient : environment :=
  {| process := fun t pid =>
       if (pid =? 4242)%Z && (t <? 5)%nat then Alive else Gone;
     returncode := fun _ => 0;
     pid_file_after := fun t file => if (t <? 4)%nat then file else None |}.

(** Process 4242 is alive for the probe of [get_pid] and gone right after. *)
Definition vanishing : environment :=
  {| process := fun t pid =>
       if (pid =? 4242)%Z && (t =? 0)%nat then Alive else Gone;
     returncode := fun _ => 0;
     pid_file_after := fun _ file => file |}.

(** No process 4242; a started daemon records itself as 4300. *)
Definition fresh_boot : environment :=
  {| process := fun _ pid => if (pid =? 4300)%Z then Alive else Gone;
     returncode := fun _ => 0;
     pid_file_after := fun _ _ => Some "4300" |}.

(** *** Facts about [get_pid] *)

Section Facts.

Variable int_strip : string -> option Z.
Variable env : environment.

Abbreviation get_pid := (get_pid int_strip env).
Abbreviation start := (start int_strip env).
Abbreviation stop := (stop int_strip env).
Abbreviation restart := (restart int_strip env).
Abbreviation status := (status int_strip env).
Abbreviation Running := (Running int_strip env).
Abbreviation Stale := (Stale int_strip env).
Abbreviation Stopped := (Stopped int_strip env).

Arguments wait_loop : simpl never.

Ltac run :=
  unfold Daemon.get_pid, Daemon.start, Daemon.stop, Daemon.restart, Daemon.status,
    bind, try_except, ret, raise, exists_, read_text, int_, os_kill,
    unlink, print, log, sleep, subprocess_run; simpl.

(** Rewrite with the facts at hand for as long as the program reduces. *)
Tactic Notation "run" "with" constr(H1) :=
  run; repeat (progress (rewrite ?H1; simpl)).
Tactic Notation "run" "with" constr(H1) constr(H2) :=
  run; repeat (progress (rewrite ?H1, ?H2; simpl)).
Tactic Notation "run" "with" constr(H1) constr(H2) constr(H3) :=
  run; repeat (progress (rewrite ?H1, ?H2, ?H3; simpl)).
Tactic Notation "run" "with" constr(H1) constr(H2) constr(H3) constr(H4) :=
  run; repeat (progress (rewrite ?H1, ?H2, ?H3, ?H4; simpl)).

Lemma get_pid_absent w :
  pid_file w = None -> get_pid w = (Ok None, w).
Proof. intros H. run. by rewrite H. Qed.

Lemma get_pid_unreadable w text :
  pid_file w = Some text -> int_strip text = None ->
  get_pid w =
  (Ok None, {| pid_file := None; clock := clock w; trace := trace w ++ [Unlink] |}).
Proof. intros Hf Hp. by run with Hf Hp. Qed.

Lemma get_pid_stale w pid :
  Stale w pid -> get_pid w = (Ok None, cleaned pid w).
Proof.
  intros (text & Hf & Hp & Hc & Hdead). run with Hf Hp Hc.
  unfold cleaned.
  destruct (process env (clock w) pid); [done| |]; simpl; by rewrite <- app_assoc.
Qed.

Lemma get_pid_running w pid :
  Running w pid -> get_pid w = (Ok (Some pid), probed pid w).
Proof.
  intros (text & Hf & Hp & _ & Hc & Hlive). unfold probed.
  by run with Hf Hp Hc Hlive.
Qed.

Lemma Running_c_int w pid : Running w pid -> c_int pid = true.
Proof. by intros (_ & _ & _ & _ & Hc & _). Qed.

Lemma truthy_running w pid : Running w pid -> truthy (Some pid) = Some pid.
Proof.
  intros (_ & _ & _ & Hnz & _ & _). simpl.
  by rewrite (proj2 (Z.eqb_neq pid 0) Hnz).
Qed.

(** Once [get_pid] has answered [None] there is no PID file left. *)
Lemma get_pid_stopped w :
  Stopped w -> exists w1, get_pid w = (Ok None, w1) /\ pid_file w1 = None.
Proof.
  intros [Habs | [(text & Hf & Hp) | (pid & Hst)]].
  - exists w. by rewrite get_pid_absent.
  - eexists. by rewrite (get_pid_unreadable _ _ Hf Hp).
  - eexists. by rewrite (get_pid_stale _ _ Hst).
Qed.

(** *** [start] *)

(** C4. [start] on a running daemon returns 1; it probes the recorded
    process with signal 0 and prints, and does nothing else: no signal is
    delivered, nothing is spawned, and the PID file is as it was. *)
Theorem start_while_running w pid :
  Running w pid ->
  exists w',
    start w = (Ok 1, w') /\
    pid_file w' = pid_file w /\
    trace w' = trace w ++ [Kill pid SIG0; Print (AlreadyRunning pid)].
Proof.
  intros Hrun. eexists. split; [|split].
  - unfold Daemon.start, bind at 1.
    rewrite (get_pid_running _ _ Hrun), (truthy_running _ _ Hrun).
    reflexivity.
  - reflexivity.
  - simpl. by rewrite <- app_assoc.
Qed.

(** *** Stale PID files *)

Lemma command_cases command op :
  (command, op) ∈ commands int_strip env ->
  op = start \/ op = stop \/ op = restart \/ op = status.
Proof.
  unfold commands. rewrite !elem_of_cons, elem_of_nil.
  intros [H|[H|[H|[H|[]]]]]; injection H as _ ->; auto.
Qed.

(** An operation begins with [get_pid], and on [None] goes on from a world
    without PID file as it would have from that world alone. *)
Lemma command_after_cleanup command op w w1 :
  (command, op) ∈ commands int_strip env ->
  get_pid w = (Ok None, w1) -> pid_file w1 = None ->
  op w = op w1.
Proof.
  intros Hop Hget Hnone.
  pose proof (get_pid_absent _ Hnone) as Hget1.
  destruct (command_cases _ _ Hop) as [-> | [-> | [-> | ->]]].
  - unfold Daemon.start, bind. by rewrite Hget, Hget1.
  - unfold Daemon.stop, bind. by rewrite Hget, Hget1.
  - unfold Daemon.restart, bind. by rewrite Hget, Hget1.
  - unfold Daemon.status, bind. by rewrite Hget, Hget1.
Qed.

(** C6. Each of [start], [stop], [restart] and [status], met with a PID file
    that names an id whose probe fails, removes the file at once, in the
    check itself, and then does what it does for a daemon without PID
    file. *)
Theorem stale_pid_file_cleanup command op w pid :
  (command, op) ∈ commands int_strip env ->
  Stale w pid ->
  exists w1,
    get_pid w = (Ok None, w1) /\
    pid_file w1 = None /\
    trace w1 = trace w ++ [Kill pid SIG0; Unlink] /\
    op w = op w1.
Proof.
  intros Hop Hst. exists (cleaned pid w).
  pose proof (get_pid_stale _ _ Hst) as Hget.
  split; [done|]. split; [done|]. split; [done|].
  by apply (command_after_cleanup command).
Qed.

(** *** [restart] *)

(** C7. On a stopped daemon [restart] is [start]: same result, same final
    world.  On a running daemon [restart] runs [stop] and then [start] from
    where [stop] left off, whatever code [stop] returned, and its result is
    that of [start]. *)
Theorem restart_spec w :
  (Stopped w -> restart w = start w) /\
  (forall pid, Running w pid ->
     forall code w2, stop (probed pid w) = (Ok code, w2) ->
       restart w = start w2).
Proof.
  split.
  - intros Hst. destruct (get_pid_stopped _ Hst) as (w1 & Hget & Hnone).
    pose proof (get_pid_absent _ Hnone) as Hget1.
    unfold Daemon.restart, bind. rewrite Hget. simpl.
    unfold Daemon.start, bind. by rewrite Hget, Hget1.
  - intros pid Hrun code w2 Hstop.
    unfold Daemon.restart, bind.
    rewrite (get_pid_running _ _ Hrun), (truthy_running _ _ Hrun).
    by rewrite Hstop.
Qed.

(** An exception that leaves [stop] leaves [restart] as well. *)
Lemma restart_stop_raises w pid e w2 :
  Running w pid -> stop (probed pid w) = (Raised e, w2) ->
  restart w = (Raised e, w2).
Proof.
  intros Hrun Hstop. unfold Daemon.restart, bind.
  rewrite (get_pid_running _ _ Hrun), (truthy_running _ _ Hrun).
  by rewrite Hstop.
Qed.

(** *** [stop] *)

Lemma stop_running w pid :
  Running w pid ->
  stop w =
  try_except
    (os_kill env pid SIGTERM ;;;
     print (Stopping pid) ;;;
     returned <~ wait_loop env pid 30 ;;
     match returned with
     | Some code => ret code
     | None =>
         print Forcing ;;; os_kill env pid SIGKILL ;;; unlink ;;; print Killed ;;; ret 0
     end)
    is_ProcessLookupError
    (unlink ;;; print WasNotRunning ;;; ret 0)
    (probed pid w).
Proof.
  intros Hrun. unfold Daemon.stop. unfold bind at 1.
  by rewrite (get_pid_running _ _ Hrun), (truthy_running _ _ Hrun).
Qed.

(** C8 (amended). When the process is there for the probe of [get_pid] and
    gone when SIGTERM is sent, [stop] does not raise: it removes the PID
    file, prints that the server was not running, and returns 0. *)
Theorem stop_race w pid :
  Running w pid ->
  process env (S (clock w)) pid = Gone ->
  exists w',
    stop w = (Ok 0, w') /\
    pid_file w' = None /\
    trace w' = trace w ++ [Kill pid SIG0; Kill pid SIGTERM; Unlink; Print WasNotRunning].
Proof.
  intros Hrun Hgone. rewrite (stop_running _ _ Hrun).
  pose proof (Running_c_int _ _ Hrun) as Hc.
  eexists. split; [|split].
  - unfold probed. by run with Hc Hgone.
  - reflexivity.
  - simpl. by rewrite <- !app_assoc.
Qed.

(** *** The wait loop *)

Lemma try_except_Ok {A} (body handler : M A) handled w a w' :
  body w = (Ok a, w') -> try_except body handled handler w = (Ok a, w').
Proof. unfold try_except. by intros ->. Qed.

(** server.py:99-103, the forced kill of a process that is there. *)
Lemma force_alive pid w :
  c_int pid = true ->
  process env (clock w) pid = Alive ->
  (print Forcing ;;; os_kill env pid SIGKILL ;;; unlink ;;; print Killed ;;; ret 0) w =
  (Ok 0, {| pid_file := None; clock := S (clock w);
            trace := trace w ++ [Print Forcing; Kill pid SIGKILL; Unlink;
                                 Print Killed] |}).
Proof. intros Hc Hlive. run with Hc Hlive. by rewrite <- !app_assoc. Qed.

Lemma polls_S pid k :
  polls pid (S k) = [Sleep 1000; Kill pid SIG0] ++ polls pid k.
Proof. reflexivity. Qed.

Lemma polls_snoc pid k :
  polls pid (S k) = polls pid k ++ [Sleep 1000; Kill pid SIG0].
Proof.
  induction k as [|k IH]; [done|].
  rewrite (polls_S pid (S k)), IH at 1.
  by rewrite app_assoc, <- polls_S.
Qed.

Lemma wait_loop_S pid n :
  wait_loop env pid (S n) =
  (sleep env 1000 ;;;
   returned <~ try_except
                 (os_kill env pid SIG0 ;;; ret None)
                 is_ProcessLookupError
                 (unlink ;;; print ServerStopped ;;; ret (Some 0)) ;;
   match returned with
   | Some code => ret (Some code)
   | None => wait_loop env pid n
   end).
Proof. reflexivity. Qed.

Lemma after_polls_clock pid k w :
  clock (after_polls env pid k w) = (clock w + 2 * k)%nat.
Proof.
  revert w. induction k as [|k IH]; intros w; simpl.
  - lia.
  - rewrite IH. simpl. lia.
Qed.

Lemma after_polls_trace pid k w :
  trace (after_polls env pid k w) = trace w ++ polls pid k.
Proof.
  revert w. induction k as [|k IH]; intros w.
  - simpl. by rewrite app_nil_r.
  - simpl after_polls. rewrite IH. simpl. by rewrite <- app_assoc.
Qed.

(** One round that finds the process alive. *)
Lemma wait_loop_step pid n w :
  c_int pid = true ->
  process env (S (clock w)) pid = Alive ->
  wait_loop env pid (S n) w = wait_loop env pid n (after_polls env pid 1 w).
Proof.
  intros Hc Hlive. rewrite wait_loop_S. run with Hc Hlive.
  by rewrite <- app_assoc.
Qed.

(** [n] rounds that all find the process alive: the loop runs out. *)
Lemma wait_loop_alive pid n w :
  c_int pid = true ->
  (forall j, (j < n)%nat -> process env (clock w + 2 * j + 1)%nat pid = Alive) ->
  wait_loop env pid n w = (Ok None, after_polls env pid n w).
Proof.
  intros Hc. revert w. induction n as [|n IH]; intros w Hlive; [done|].
  rewrite wait_loop_step; [|done|].
  - rewrite IH; [done|]. intros j Hj. simpl.
    rewrite <- (Hlive (S j)) by lia. f_equal. lia.
  - rewrite <- (Hlive 0%nat) by lia. f_equal. lia.
Qed.

(** The process is found gone in round [k + 1]: the loop returns 0 there. *)
Lemma wait_loop_gone pid n k w :
  c_int pid = true ->
  (k < n)%nat ->
  (forall j, (j < k)%nat -> process env (clock w + 2 * j + 1)%nat pid = Alive) ->
  process env (clock w + 2 * k + 1)%nat pid = Gone ->
  exists w',
    wait_loop env pid n w = (Ok (Some 0), w') /\
    pid_file w' = None /\
    trace w' = trace w ++ polls pid (S k) ++ [Unlink; Print ServerStopped].
Proof.
  intros Hc. revert n w. induction k as [|k IH]; intros n w Hk Hlive Hgone.
  - destruct n as [|n]; [lia|].
    replace (clock w + 2 * 0 + 1)%nat with (S (clock w)) in Hgone by lia.
    eexists. split; [|split].
    + rewrite wait_loop_S. by run with Hc Hgone.
    + reflexivity.
    + simpl. by rewrite <- !app_assoc.
  - destruct n as [|n]; [lia|].
    rewrite wait_loop_step; [|done|].
    2:{ rewrite <- (Hlive 0%nat) by lia. f_equal. lia. }
    destruct (IH n (after_polls env pid 1 w)) as (w' & Hw & Hf & Ht).
    + lia.
    + intros j Hj. simpl. rewrite <- (Hlive (S j)) by lia. f_equal. lia.
    + simpl. rewrite <- Hgone. f_equal. lia.
    + exists w'. split; [done|]. split; [done|].
      rewrite Ht. simpl trace. rewrite (polls_S pid (S k)).
      by rewrite <- !app_assoc.
Qed.

(** C5. [stop] on a running daemon sends SIGTERM and then, up to 30 times,
    sleeps a second and probes the process.  If the [k]-th probe is the
    first to find it gone, [stop] removes the PID file and returns 0,
    having sent no SIGKILL.  If all 30 probes find it alive, [stop] sends
    SIGKILL, removes the PID file and returns 0 as well. *)
Theorem stop_while_running w pid :
  Running w pid ->
  process env (S (clock w)) pid = Alive ->
  (forall k, (1 <= k <= 30)%nat ->
     (forall j, (1 <= j < k)%nat ->
        process env (clock w + 2 * j + 1)%nat pid = Alive) ->
     process env (clock w + 2 * k + 1)%nat pid = Gone ->
     exists w',
       stop w = (Ok 0, w') /\
       pid_file w' = None /\
       trace w' =
         trace w ++ [Kill pid SIG0; Kill pid SIGTERM; Print (Stopping pid)] ++
         polls pid k ++ [Unlink; Print ServerStopped]) /\
  ((forall j, (1 <= j <= 30)%nat ->
      process env (clock w + 2 * j + 1)%nat pid = Alive) ->
   process env (clock w + 62)%nat pid = Alive ->
   exists w',
     stop w = (Ok 0, w') /\
     pid_file w' = None /\
     trace w' =
       trace w ++ [Kill pid SIG0; Kill pid SIGTERM; Print (Stopping pid)] ++
       polls pid 30 ++ [Print Forcing; Kill pid SIGKILL; Unlink; Print Killed]).
Proof.
  intros Hrun Hterm. rewrite (stop_running _ _ Hrun).
  pose proof (Running_c_int _ _ Hrun) as Hc.
  set (w0 := {| pid_file := pid_file w; clock := S (S (clock w));
                trace := trace w ++ [Kill pid SIG0; Kill pid SIGTERM;
                                     Print (Stopping pid)] |}).
  assert (Hhead : forall (k : option Z -> M Z),
    try_except
      (os_kill env pid SIGTERM ;;; print (Stopping pid) ;;;
       returned <~ wait_loop env pid 30 ;; k returned)
      is_ProcessLookupError (unlink ;;; print WasNotRunning ;;; ret 0)
      (probed pid w) =
    match wait_loop env pid 30 w0 with
    | (Ok returned, w1) =>
        try_except (k returned) is_ProcessLookupError
          (unlink ;;; print WasNotRunning ;;; ret 0) w1
    | (Raised e, w1) =>
        try_except (raise e) is_ProcessLookupError
          (unlink ;;; print WasNotRunning ;;; ret 0) w1
    end).
  { intros k. unfold probed, try_except, bind, os_kill, print, log, raise. simpl.
    rewrite Hc, Hterm. simpl. rewrite <- !app_assoc. simpl. fold w0.
    by destruct (wait_loop env pid 30 w0) as [[returned|e] w1]. }
  rewrite Hhead. clear Hhead. split.
  - intros k Hk Hlive Hgone.
    destruct (wait_loop_gone pid 30 (k - 1) w0) as (w' & Hw & Hf & Ht).
    + done.
    + lia.
    + intros j Hj. simpl. rewrite <- (Hlive (S j)) by lia. f_equal. lia.
    + simpl. rewrite <- Hgone. f_equal. lia.
    + exists w'. rewrite Hw. split; [done|]. split; [done|].
      rewrite Ht. simpl trace. replace (S (k - 1)) with k by lia.
      by rewrite <- !app_assoc.
  - intros Hlive Hkill.
    rewrite wait_loop_alive; [|done|].
    2:{ intros j Hj. simpl. rewrite <- (Hlive (S j)) by lia. f_equal. lia. }
    set (wp := after_polls env pid 30 w0).
    assert (Hclock : clock wp = (clock w + 62)%nat).
    { unfold wp. rewrite after_polls_clock. simpl. lia. }
    exists {| pid_file := None; clock := S (clock wp);
              trace := trace wp ++ [Print Forcing; Kill pid SIGKILL; Unlink;
                                    Print Killed] |}.
    split; [|split].
    + apply try_except_Ok, force_alive; [done|]. by rewrite Hclock.
    + reflexivity.
    + cbn [trace]. unfold wp. rewrite after_polls_trace. cbn [trace w0].
      by rewrite <- !app_assoc.
Qed.

End Facts.

(** *** The theorems at the sample environments *)

Lemma start_while_running_witness :
  exists w',
    start decimal stubborn recorded = (Ok 1, w') /\
    pid_file w' = pid_file recorded /\
    trace w' = trace recorded ++ [Kill 4242 SIG0; Print (AlreadyRunning 4242)].
Proof.
  apply (start_while_running decimal stubborn recorded 4242).
  exists "4242". repeat split. lia.
Defined.

Lemma stop_while_running_witness :
  (exists w',
     stop decimal obedient recorded = (Ok 0, w') /\
     pid_file w' = None /\
     trace w' =
       trace recorded ++ [Kill 4242 SIG0; Kill 4242 SIGTERM; Print (Stopping 4242)] ++
       polls 4242 2 ++ [Unlink; Print ServerStopped]) /\
  (exists w',
     stop decimal stubborn recorded = (Ok 0, w') /\
     pid_file w' = None /\
     trace w' =
       trace recorded ++ [Kill 4242 SIG0; Kill 4242 SIGTERM; Print (Stopping 4242)] ++
       polls 4242 30 ++ [Print Forcing; Kill 4242 SIGKILL; Unlink; Print Killed]).
Proof.
  split.
  - apply (proj1 (stop_while_running decimal obedient recorded 4242
                    ltac:(exists "4242"; repeat split; lia) eq_refl) 2%nat).
    + lia.
    + intros j Hj. assert (j = 1%nat) as -> by lia. reflexivity.
    + reflexivity.
  - apply (proj2 (stop_while_running decimal stubborn recorded 4242
                    ltac:(exists "4242"; repeat split; lia) eq_refl)).
    + intros j Hj. reflexivity.
    + reflexivity.
Defined.

Example stop_obedient :
  stop decimal obedient recorded =
  (Ok 0,
   {| pid_file := None; clock := 6;
      trace := [Kill 4242 SIG0; Kill 4242 SIGTERM; Print (Stopping 4242);
                Sleep 1000; Kill 4242 SIG0; Sleep 1000; Kill 4242 SIG0;
                Unlink; Print ServerStopped] |}).
Proof. reflexivity. Qed.

Lemma stale_pid_file_cleanup_witness :
  exists w1,
    get_pid decimal fresh_boot recorded = (Ok None, w1) /\
    pid_file w1 = None /\
    trace w1 = trace recorded ++ [Kill 4242 SIG0; Unlink] /\
    restart decimal fresh_boot recorded = restart decimal fresh_boot w1.
Proof.
  apply (stale_pid_file_cleanup decimal fresh_boot "restart").
  - repeat constructor.
  - exists "4242". repeat split. discriminate.
Defined.

Example stale_operations :
  status decimal fresh_boot recorded =
    (Ok 1, {| pid_file := None; clock := 1;
              trace := [Kill 4242 SIG0; Unlink; Print NotRunning] |}) /\
  stop decimal fresh_boot recorded =
    (Ok 1, {| pid_file := None; clock := 1;
              trace := [Kill 4242 SIG0; Unlink; Print NotRunning] |}) /\
  start decimal fresh_boot recorded =
    (Ok 0, {| pid_file := Some "4300"; clock := 4;
              trace := [Kill 4242 SIG0; Unlink; Run; Sleep 500; Kill 4300 SIG0;
                        Print (Started 4300)] |}) /\
  restart decimal fresh_boot recorded = start decimal fresh_boot recorded.
Proof. repeat split. Qed.

Lemma restart_spec_witness :
  restart decimal fresh_boot no_pid_file = start decimal fresh_boot no_pid_file /\
  restart decimal stubborn recorded =
    start decimal stubborn (snd (stop decimal stubborn (probed 4242 recorded))).
Proof.
  split.
  - apply (proj1 (restart_spec decimal fresh_boot no_pid_file)).
    by left.
  - apply (proj2 (restart_spec decimal stubborn recorded) 4242
             ltac:(exists "4242"; repeat split; lia) 0).
    vm_compute. reflexivity.
Defined.

Lemma stop_race_witness :
  exists w',
    stop decimal vanishing recorded = (Ok 0, w') /\
    pid_file w' = None /\
    trace w' =
      trace recorded ++ [Kill 4242 SIG0; Kill 4242 SIGTERM; Unlink; Print WasNotRunning].
Proof.
  apply (stop_race decimal vanishing recorded 4242).
  - exists "4242". repeat split. lia.
  - reflexivity.
Defined.

(** C8 as stated fails: the contract gives the already-stopped case exit
    code 1, which [stop] returns when it finds no live process at the
    start; when the process goes between the probe and SIGTERM it
    returns 0. *)
Lemma stop_race_returns_0 :
  Running decimal vanishing recorded 4242 /\
  process vanishing (S (clock recorded)) 4242 = Gone /\
  fst (stop decimal vanishing recorded) = Ok 0 /\
  fst (stop decimal vanishing recorded) <> Ok 1 /\
  fst (stop decimal vanishing no_pid_file) = Ok 1.
Proof.
  split; [exists "4242"; repeat split; lia|].
  repeat split. discriminate.
Qed.

End Daemon.


(* ===================================================================== *)
(** ** More on the configuration merge *)
(* ===================================================================== *)

Module ConfigFacts.
Import Py Config.

(** Every dict below [v], [v] included, holds each key once. *)
Fixpoint wf_value (v : value) : bool :=
  match v with
  | VDict items =>
      unique_keys items &&
      (fix all (d : dict) : bool :=
         match d with
         | [] => true
         | (_, x) :: rest => wf_value x && all rest
         end) items
  | VList items =>
      (fix all (l : list value) : bool :=
         match l with
         | [] => true
         | x :: rest => wf_value x && all rest
         end) items
  | _ => true
  end.

Definition wf_dict (d : dict) : bool := wf_value (VDict d).

(** Induction over values, with the values inside lists and dicts. *)
Section value_induction.

Variable P : value -> Prop.
Hypothesis PNone : P VNone.
Hypothesis PBool : forall b, P (VBool b).
Hypothesis PInt : forall z, P (VInt z).
Hypothesis PFloat : forall x, P (VFloat x).
Hypothesis PStr : forall s, P (VStr s).
Hypothesis PList : forall items, Forall P items -> P (VList items).
Hypothesis PDict : forall items, Forall (fun kv => P (snd kv)) items -> P (VDict items).

Fixpoint value_induction (v : value) : P v :=
  match v with
  | VNone => PNone
  | VBool b => PBool b
  | VInt z => PInt z
  | VFloat x => PFloat x
  | VStr s => PStr s
  | VList items =>
      PList items
        ((fix all (l : list value) : Forall P l :=
            match l with
            | [] => @List.Forall_nil _ P
            | x :: rest => @List.Forall_cons _ P x rest (value_induction x) (all rest)
            end) items)
  | VDict items =>
      PDict items
        ((fix all (d : dict) : Forall (fun kv => P (snd kv)) d :=
            match d with
            | [] => @List.Forall_nil _ _
            | kv :: rest =>
                @List.Forall_cons _ (fun kv => P (snd kv)) kv rest
                  (value_induction (snd kv)) (all rest)
            end) items)
  end.

End value_induction.

(** Sample documents: a base with a list and a nested table, an override
    that touches one of the two. *)
Definition site : dict :=
  [ ("title", VStr "bearden");
    ("server", VDict [("port", VInt 5000); ("host", VStr "0.0.0.0")]);
    ("services", VDict [("wiki", VDict [("url", VStr "http://wiki.lan")])]) ].

Definition site_local : dict :=
  [ ("debug", VBool true);
    ("server", VDict [("port", VInt 8080); ("workers", VInt 2)]) ].

(** *** Keys *)

Lemma wf_dict_spec d :
  wf_dict d = true <->
  unique_keys d = true /\ Forall (fun kv => wf_value (snd kv) = true) d.
Proof.
  unfold wf_dict. simpl. rewrite andb_true_iff.
  apply and_iff_compat_l.
  induction d as [|[k v] rest IH]; simpl.
  - split; [by constructor | done].
  - rewrite andb_true_iff, IH. split.
    + intros [Hv Hrest]. by constructor.
    + intros H. by inversion H.
Qed.

Lemma existsb_keys_get {V} k (d : list (string * V)) :
  existsb (String.eqb k) (keys d) = match dict_get k d with Some _ => true | None => false end.
Proof.
  induction d as [|[k' v'] rest IH]; simpl; [done|].
  by destruct (String.eqb k k').
Qed.

Lemma keys_dict_set {V} k (v : V) d :
  keys (dict_set k v d) =
  if existsb (String.eqb k) (keys d) then keys d else keys d ++ [k].
Proof.
  induction d as [|[k' v'] rest IH]; simpl; [done|].
  destruct (String.eqb k k') eqn:E; simpl; [done|].
  fold (keys (dict_set k v rest)). rewrite IH. fold (keys rest).
  by destruct (existsb (String.eqb k) (keys rest)).
Qed.

Lemma dict_set_same {V} k (v : V) d :
  dict_get k d = Some v -> dict_set k v d = d.
Proof.
  induction d as [|[k' v'] rest IH]; simpl; [done|].
  destruct (String.eqb k k') eqn:E.
  - by intros [= ->].
  - intros H. by rewrite IH.
Qed.

Lemma unique_keys_get {V} k (v : V) d :
  unique_keys d = true -> (k, v) ∈ d -> dict_get k d = Some v.
Proof.
  unfold unique_keys.
  induction d as [|[k' v'] rest IH]; simpl; [by intros _ ?%elem_of_nil|].
  intros [Hfresh Hu]%andb_true_iff [[= -> ->] | Hin]%elem_of_cons.
  - by rewrite String.eqb_refl.
  - destruct (String.eqb k k') eqn:E; [|by apply IH].
    apply String.eqb_eq in E. subst k'.
    apply negb_true_iff in Hfresh. fold (keys rest) in Hfresh.
    rewrite existsb_keys_get, (IH Hu Hin) in Hfresh. done.
Qed.

(** The keys of [base] in their order, then the new keys of [override] in
    theirs. *)
Definition merged_keys (base override : dict) : list string :=
  keys base ++
  List.filter (fun k => negb (existsb (String.eqb k) (keys base))) (keys override).

Lemma merge_loop_keys items result :
  unique_keys items = true ->
  keys (merge_loop items result) = merged_keys result items.
Proof.
  unfold unique_keys, merged_keys.
  revert result. induction items as [|[key value] rest IH]; intros result Hu.
  - simpl. by rewrite app_nil_r.
  - rewrite merge_loop_step. simpl in Hu.
    apply andb_true_iff in Hu as [Hfresh Hu]. apply negb_true_iff in Hfresh.
    rewrite (IH _ Hu), keys_dict_set. simpl.
    destruct (existsb (String.eqb key) (keys result)) eqn:Hin; simpl; [done|].
    rewrite <- app_assoc. simpl. do 2 f_equal.
    apply List.filter_ext_in. intros k Hk.
    rewrite existsb_app. simpl. rewrite orb_false_r.
    destruct (String.eqb k key) eqn:E; [|by rewrite orb_false_r].
    apply String.eqb_eq in E. subst k.
    assert (existsb (String.eqb key) (keys rest) = true) as Hin'; [|by rewrite Hin' in Hfresh].
    apply existsb_exists. exists key. by rewrite String.eqb_refl.
Qed.

Lemma dict_set_absent {V} k (v : V) d :
  dict_get k d = None -> dict_set k v d = d ++ [(k, v)].
Proof.
  induction d as [|[k' v'] rest IH]; simpl; [done|].
  destruct (String.eqb k k'); [done|]. intros H. by rewrite IH.
Qed.

(** X1. Keys [override] does not have keep the value [base] gives them. *)
Theorem deep_merge_keeps_base k base override :
  dict_get k override = None ->
  dict_get k (deep_merge base override) = dict_get k base.
Proof. rewrite deep_merge_unfold. apply merge_loop_untouched. Qed.

Lemma deep_merge_keeps_base_witness :
  dict_get "services" (deep_merge site site_local) = dict_get "services" site.
Proof. apply (deep_merge_keeps_base "services" site site_local). reflexivity. Defined.

(** X2. The result lists the keys of [base] in the order [base] has them,
    followed by the keys only [override] has, in the order [override] has
    them. *)
Theorem deep_merge_key_order base override :
  unique_keys override = true ->
  keys (deep_merge base override) = merged_keys base override.
Proof. rewrite deep_merge_unfold. apply merge_loop_keys. Qed.

Lemma deep_merge_key_order_witness :
  keys (deep_merge site site_local) = ["title"; "server"; "services"; "debug"].
Proof. apply (deep_merge_key_order site site_local). reflexivity. Defined.

Lemma merge_loop_from_prefix rest : forall done,
  unique_keys (done ++ rest) = true -> merge_loop rest done = done ++ rest.
Proof.
  induction rest as [|[key value] rest IH]; intros done Hu.
  - simpl. by rewrite app_nil_r.
  - rewrite merge_loop_step.
    pose proof (Heap.unique_keys_app_cons _ _ _ _ Hu) as Hfresh.
    rewrite Hfresh. simpl. rewrite (dict_set_absent _ _ _ Hfresh).
    rewrite IH; rewrite <- app_assoc; done.
Qed.

Lemma merge_into_empty override :
  unique_keys override = true -> deep_merge [] override = override.
Proof.
  intros Hu. rewrite deep_merge_unfold. by apply (merge_loop_from_prefix override []).
Qed.

(** X3. Merging into the empty dict gives [override]. *)
Theorem deep_merge_empty_base override :
  unique_keys override = true -> deep_merge [] override = override.
Proof.
  intros Hu. rewrite deep_merge_unfold.
  by rewrite (merge_loop_from_prefix override [] Hu).
Qed.

Lemma deep_merge_empty_base_witness : deep_merge [] site_local = site_local.
Proof. apply (deep_merge_empty_base site_local). reflexivity. Defined.

(** *** Merging the same override again *)

(** A loop over items whose merged entries [result] already holds changes
    nothing. *)
Lemma merge_loop_settled items result :
  (forall key value, (key, value) ∈ items ->
     dict_get key result = Some (merged_entry (dict_get key result) value)) ->
  merge_loop items result = result.
Proof.
  induction items as [|[key value] rest IH]; intros Hall; [done|].
  rewrite merge_loop_step.
  rewrite dict_set_same by (apply Hall; by left).
  apply IH. intros k v Hin. apply Hall. by right.
Qed.

Lemma deep_merge_again_value (v : value) :
  wf_value v = true ->
  forall override, v = VDict override ->
  forall base, deep_merge (deep_merge base override) override = deep_merge base override.
Proof.
  induction v as [| | | | | |items IH] using value_induction; try done.
  intros Hwf override [= <-] base.
  apply wf_dict_spec in Hwf as [Hu Hvalues].
  assert (Hidem : forall key o, (key, VDict o) ∈ items -> deep_merge o o = o).
  { intros key o Hin.
    rewrite Forall_forall in IH, Hvalues.
    specialize (IH _ Hin). specialize (Hvalues _ Hin). simpl in IH, Hvalues.
    specialize (IH Hvalues o eq_refl []).
    assert (unique_keys o = true) as Huo
      by (by apply wf_dict_spec in Hvalues as [? _]).
    by rewrite (merge_into_empty o Huo) in IH. }
  rewrite (deep_merge_unfold (deep_merge base items)).
  apply merge_loop_settled. intros key value Hin.
  pose proof (unique_keys_get _ _ _ Hu Hin) as Hget.
  rewrite deep_merge_unfold at 1 2.
  rewrite (merge_loop_lookup _ _ _ _ Hu Hget).
  f_equal. unfold merged_entry.
  destruct value as [| | | | | |o]; try by destruct (dict_get key base) as [[]|].
  rewrite Forall_forall in IH, Hvalues.
  specialize (IH _ Hin). specialize (Hvalues _ Hin). simpl in IH, Hvalues.
  destruct (dict_get key base) as [[| | | | | |b]|]; try by rewrite (Hidem key o).
  by rewrite (IH Hvalues o eq_refl b).
Qed.

(** X4. Merging an override that has been merged in already changes nothing. *)
Theorem deep_merge_again base override :
  wf_dict override = true ->
  deep_merge (deep_merge base override) override = deep_merge base override.
Proof. intros Hwf. by apply (deep_merge_again_value (VDict override)). Qed.

Lemma deep_merge_again_witness :
  deep_merge (deep_merge site site_local) site_local = deep_merge site site_local.
Proof. apply (deep_merge_again site site_local). reflexivity. Defined.

(** X5. A dict merged into itself is that dict. *)
Theorem deep_merge_idempotent d :
  wf_dict d = true -> deep_merge d d = d.
Proof.
  intros Hwf.
  pose proof (deep_merge_again_value (VDict d) Hwf d eq_refl []) as H.
  assert (unique_keys d = true) as Hu by (by apply wf_dict_spec in Hwf as [? _]).
  by rewrite (merge_into_empty d Hu) in H.
Qed.

Lemma deep_merge_idempotent_witness : deep_merge site site = site.
Proof. apply (deep_merge_idempotent site). reflexivity. Defined.

(** *** Well-formed results *)

Lemma dict_get_elem_of {V} k (v : V) d : dict_get k d = Some v -> (k, v) ∈ d.
Proof.
  induction d as [|[k' v'] rest IH]; simpl; [done|].
  destruct (String.eqb k k') eqn:E.
  - apply String.eqb_eq in E. subst k'. intros [= ->]. by left.
  - intros H. right. by apply IH.
Qed.

Lemma Forall_dict_set {V} (P : string * V -> Prop) k v d :
  (forall k', P (k', v)) -> Forall P d -> Forall P (dict_set k v d).
Proof.
  intros Hv. induction d as [|[k' v'] rest IH]; simpl; intros Hd.
  - by constructor.
  - inversion Hd as [|? ? Hhead Hrest]; subst.
    destruct (String.eqb k k'); constructor; auto.
Qed.

Lemma wf_dict_assign k v d :
  wf_dict d = true -> wf_value v = true -> wf_dict (dict_set k v d) = true.
Proof.
  rewrite !wf_dict_spec. intros [Hu Hall] Hv. split.
  - by apply Heap.unique_keys_dict_set.
  - by apply Forall_dict_set.
Qed.

Lemma merge_loop_wf items : forall result,
  Forall (fun kv =>
            wf_value (snd kv) = true /\
            forall override, snd kv = VDict override ->
              forall base, wf_dict base = true ->
                wf_dict (deep_merge base override) = true) items ->
  wf_dict result = true -> wf_dict (merge_loop items result) = true.
Proof.
  induction items as [|[key value] rest IH]; intros result Hitems Hresult; [done|].
  inversion Hitems as [|? ? [Hvalue Hrec] Hrest]; subst. simpl in Hvalue, Hrec.
  rewrite merge_loop_step. apply IH; [done|].
  apply wf_dict_assign; [done|]. unfold merged_entry.
  destruct (dict_get key result) as [old|] eqn:Hold; [|done].
  destruct old as [| | | | | |r]; try done.
  destruct value as [| | | | | |o]; try done.
  apply (Hrec o eq_refl r).
  apply wf_dict_spec in Hresult as [_ Hall].
  rewrite Forall_forall in Hall.
  apply (Hall (key, VDict r)). by apply dict_get_elem_of.
Qed.

Lemma deep_merge_wf_value (v : value) :
  wf_value v = true ->
  forall override, v = VDict override ->
  forall base, wf_dict base = true -> wf_dict (deep_merge base override) = true.
Proof.
  induction v as [| | | | | |items IH] using value_induction; try done.
  intros Hwf override [= <-] base Hbase.
  rewrite deep_merge_unfold. apply merge_loop_wf; [|done].
  apply wf_dict_spec in Hwf as [_ Hvalues].
  rewrite Forall_forall in IH, Hvalues. apply Forall_forall.
  intros kv Hin. split; [by apply Hvalues|]. by apply IH, Hvalues.
Qed.

(** The merge of two dicts that hold each key once, at every level, holds
    each key once at every level. *)
Lemma deep_merge_wf base override :
  wf_dict base = true -> wf_dict override = true ->
  wf_dict (deep_merge base override) = true.
Proof. intros Hb Ho. by apply (deep_merge_wf_value (VDict override)). Qed.

(** *** The port of the process manager *)

(** The [port] entry of the [server] table of a file, where there is one. *)
Definition server_port (file : document) : option value :=
  match file with
  | Some doc =>
      match dict_get "server" doc with
      | Some (VDict server) => dict_get "port" server
      | _ => None
      end
  | None => None
  end.

(** The file is absent, or has no [server] entry, or has a table there. *)
Definition server_is_table (file : document) : bool :=
  match file with
  | Some doc =>
      match dict_get "server" doc with
      | Some (VDict _) | None => true
      | Some _ => false
      end
  | None => true
  end.

(** X6. [_load_port] answers the port of the local file if it has one, else
    that of the base file, else 5000. *)
Theorem load_port_precedence (config_toml config_local_toml : document) :
  server_is_table config_toml = true ->
  server_is_table config_local_toml = true ->
  _load_port config_toml config_local_toml =
  Ok match server_port config_local_toml with
     | Some port => port
     | None =>
         match server_port config_toml with
         | Some port => port
         | None => VInt 5000
         end
     end.
Proof.
  unfold _load_port, server_is_table, server_port.
  destruct config_toml as [base|], config_local_toml as [local|]; simpl;
    repeat match goal with
    | |- context [dict_get ?k ?d] => destruct (dict_get k d) as [[]|] eqn:?; simpl
    end; try done.
Qed.

Lemma load_port_precedence_witness :
  _load_port (Some site) (Some site_local) = Ok (VInt 8080) /\
  _load_port (Some site) (Some [("debug", VBool true)]) = Ok (VInt 5000) /\
  _load_port None (Some [("server", VDict [])]) = Ok (VInt 5000).
Proof.
  split; [|split].
  - apply (load_port_precedence (Some site) (Some site_local)); reflexivity.
  - apply (load_port_precedence (Some site) (Some [("debug", VBool true)]));
      reflexivity.
  - apply (load_port_precedence None (Some [("server", VDict [])])); reflexivity.
Defined.

(** X7. Over files that load, [_load_port] raises [AttributeError] exactly
    when a file that exists has a [server] entry that is not a table. *)
Theorem load_port_raises (config_toml config_local_toml : document) :
  _load_port config_toml config_local_toml = Raised AttributeError <->
  server_is_table config_toml && server_is_table config_local_toml = false.
Proof.
  unfold _load_port, server_is_table.
  destruct config_toml as [base|], config_local_toml as [local|]; simpl;
    repeat match goal with
    | |- context [dict_get ?k ?d] => destruct (dict_get k d) as [[]|] eqn:?; simpl
    end;
    split; done.
Qed.

End ConfigFacts.

(* ===================================================================== *)
(** ** More on [deep_merge] over the store *)
(* ===================================================================== *)

Module HeapFacts.
Import Py Heap.

(** X8. On a well-formed store, a call on two dicts returns whenever the
    recursion limit is at least the depth to which dicts nest in
    [override]. *)
Theorem deep_merge_terminates limit base override h :
  wf_heap h = true -> is_dict h base = true -> is_dict h override = true ->
  nesting h limit override = true ->
  exists result h', deep_merge limit base override h = Some (result, h').
Proof. apply deep_merge_returns. Qed.

Lemma deep_merge_terminates_witness :
  exists result h', deep_merge 2 3 6 two_docs = Some (result, h').
Proof. apply (deep_merge_terminates 2 3 6 two_docs); reflexivity. Defined.

(** *** The store against the values *)

(** Two dicts with the same keys in the same order, their values related by
    [R]. *)
Definition entries {A B} (R : A -> B -> Prop) (ka : string * A) (kb : string * B)
    : Prop :=
  fst ka = fst kb /\ R (snd ka) (snd kb).

(** [reads P d h l v]: read [d] levels deep, the reference [l] stands for
    the value [v] in [h], and every object the reading visits is one of
    [P]. *)
Fixpoint reads (P : loc -> Prop) (d : nat) (h : heap) (l : loc) (v : value) : Prop :=
  match d with
  | O => False
  | S d' =>
      P l /\
      match h !! l with
      | Some ONone => v = VNone
      | Some (OBool b) => v = VBool b
      | Some (OInt z) => v = VInt z
      | Some (OFloat x) => v = VFloat x
      | Some (OStr s) => v = VStr s
      | Some (OList items) =>
          exists vs, v = VList vs /\ Forall2 (reads P d' h) items vs
      | Some (ODict items) =>
          exists kvs, v = VDict kvs /\ Forall2 (entries (reads P d' h)) items kvs
      | None => False
      end
  end.

(** A call, on dicts that read as [bv] and [ov] at depth [d], returns a
    dict that reads as their merge; the reading visits what the readings of
    the arguments visit and what the call has added. *)
Definition refines (rec : loc -> loc -> heap -> option (loc * heap)) (d : nat)
    : Prop :=
  forall (P : loc -> Prop) b o h m h' bv ov,
    (forall l, P l -> (l < length h)%nat) ->
    rec b o h = Some (m, h') ->
    reads P d h b (VDict bv) -> reads P d h o (VDict ov) ->
    reads (fun l => P l \/ (length h <= l < length h')%nat) d h' m
      (VDict (Config.deep_merge bv ov)).

Lemma reads_read P d : forall h l v, reads P d h l v -> read d h l = Some v.
Proof.
  induction d as [|d IH]; intros h l v; [done|].
  simpl. intros [_ H]. destruct (h !! l) as [[| | | | |items|items]|]; simpl;
    try (by subst); try done.
  - destruct H as (vs & -> & Hvs).
    assert (mapM (read d h) items = Some vs) as ->; [|done].
    apply mapM_Some. eapply Forall2_impl; [done|]. eauto.
  - destruct H as (kvs & -> & Hkvs).
    assert (mapM (fun kv => v ← read d h (snd kv); Some (fst kv, v)) items
            = Some kvs) as ->; [|done].
    apply mapM_Some. eapply Forall2_impl; [done|].
    intros [k x] [k' y] [Hk Hx]. simpl in *. subst k'.
    by rewrite (IH _ _ _ Hx).
Qed.

Lemma read_reads d : forall h l v,
  read d h l = Some v -> reads (fun l => (l < length h)%nat) d h l v.
Proof.
  induction d as [|d IH]; intros h l v; [done|].
  simpl. destruct (h !! l) as [o|] eqn:Hl; [|done]. simpl.
  intros H. split; [by eapply lookup_lt_Some|].
  destruct o as [| | | | |items|items]; try (by injection H as <-).
  - destruct (mapM (read d h) items) as [vs|] eqn:Hvs; [|done].
    injection H as <-. exists vs. split; [done|].
    apply mapM_Some in Hvs. eapply Forall2_impl; [done|]. eauto.
  - destruct (mapM _ items) as [kvs|] eqn:Hkvs; [|done].
    injection H as <-. exists kvs. split; [done|].
    apply mapM_Some in Hkvs. eapply Forall2_impl; [done|].
    intros [k x] [k' y]. simpl.
    destruct (read d h x) as [v'|] eqn:Hx; [|done].
    simpl. intros [= <- <-]. split; [done|]. by apply IH.
Qed.

(** A reading holds in any store that keeps the objects it visits. *)
Lemma reads_moved (P Q : loc -> Prop) h hx :
  (forall l, P l -> Q l) ->
  (forall l o, P l -> h !! l = Some o -> hx !! l = Some o) ->
  forall d l v, reads P d h l v -> reads Q d hx l v.
Proof.
  intros Hsub Hkeep. induction d as [|d IH]; intros l v; [done|].
  simpl. intros [HP H]. split; [by apply Hsub|].
  destruct (h !! l) as [o|] eqn:Hl; [|done].
  rewrite (Hkeep _ _ HP Hl).
  destruct o as [| | | | |items|items]; try done.
  - destruct H as (vs & -> & Hvs). exists vs. split; [done|].
    eapply Forall2_impl; [done|]. eauto.
  - destruct H as (kvs & -> & Hkvs). exists kvs. split; [done|].
    eapply Forall2_impl; [done|]. intros kl kv [Hk Hx]. split; [done|]. eauto.
Qed.

Lemma reads_dict P d h l v :
  reads P d h l v -> is_dict h l = true -> exists kvs, v = VDict kvs.
Proof.
  destruct d as [|d]; [done|]. simpl. unfold is_dict. intros [_ H].
  destruct (h !! l) as [[]|]; try done. destruct H as (kvs & -> & _). eauto.
Qed.

Lemma reads_is_dict P d h l kvs : reads P d h l (VDict kvs) -> is_dict h l = true.
Proof.
  destruct d as [|d]; [done|]. simpl. unfold is_dict. intros [_ H].
  destruct (h !! l) as [[]|]; try done. by destruct H as (vs & ? & _).
Qed.

Lemma reads_items P d h l items v :
  reads P (S d) h l v -> h !! l = Some (ODict items) ->
  P l /\ exists kvs, v = VDict kvs /\ Forall2 (entries (reads P d h)) items kvs.
Proof. simpl. intros [HP H] Hl. by rewrite Hl in H. Qed.

Lemma entries_get {A B} (R : A -> B -> Prop) k xs ys :
  Forall2 (entries R) xs ys ->
  match dict_get k xs, dict_get k ys with
  | Some x, Some y => R x y
  | None, None => True
  | _, _ => False
  end.
Proof.
  induction 1 as [|[k1 x] [k2 y] xs ys [Hk Hxy] _ IH]; simpl; [done|].
  simpl in Hk. subst k2. by destruct (String.eqb k k1).
Qed.

Lemma entries_set {A B} (R : A -> B -> Prop) k x y xs ys :
  Forall2 (entries R) xs ys -> R x y ->
  Forall2 (entries R) (dict_set k x xs) (dict_set k y ys).
Proof.
  intros H Hxy. induction H as [|[k1 x1] [k2 y1] xs ys [Hk H1] Hrest IH]; simpl.
  - by repeat constructor.
  - simpl in Hk. subst k2. destruct (String.eqb k k1).
    + by constructor.
    + constructor; [by split | done].
Qed.

(** The loop of a call started in [h], on an [override] that reads as
    [ov]; [rec] is the recursive call. *)
Section Refinement.

Variable rec : loc -> loc -> heap -> option (loc * heap).
Variable d : nat.
Hypothesis rec_frames : frames rec.
Hypothesis rec_refines : refines rec d.

Variable P : loc -> Prop.
Variable h : heap.
Variable override : loc.
Variable oitems : list (string * loc).
Variable ov : dict.
Hypothesis P_old : forall l, P l -> (l < length h)%nat.
Hypothesis P_override : P override.
Hypothesis override_dict : h !! override = Some (ODict oitems).
Hypothesis override_reads : Forall2 (entries (reads P d h)) oitems ov.

(** What a reading may visit once the store has grown to [hc]: the
    arguments, and what the recursive calls have added; not the result,
    which sits at [length h] and is assigned into. *)
Definition built (hc : heap) (l : loc) : Prop :=
  P l \/ (length h < l < length hc)%nat.

(** The dict under construction reads as [cur]. *)
Definition under_construction (hc : heap) (ritems : list (string * loc)) (cur : dict)
    : Prop :=
  (forall l o, P l -> h !! l = Some o -> hc !! l = Some o) /\
  hc !! length h = Some (ODict ritems) /\
  Forall2 (entries (reads (built hc) d hc)) ritems cur.

(** [result[key] = x], after the store has grown from [hc] to [h1]. *)
Lemma assign_refines hc h1 ritems cur key x xv :
  under_construction hc ritems cur ->
  (length hc <= length h1)%nat ->
  (forall l, (l < length hc)%nat -> h1 !! l = hc !! l) ->
  reads (built h1) d h1 x xv ->
  under_construction (<[length h := ODict (dict_set key x ritems)]> h1)
    (dict_set key x ritems) (dict_set key xv cur).
Proof.
  intros (Hold & Hres & Hitems) Hlen Hsame Hx.
  assert (length h < length hc)%nat as Hlt by (by eapply lookup_lt_Some).
  assert (forall l o, built h1 l -> h1 !! l = Some o ->
            <[length h := ODict (dict_set key x ritems)]> h1 !! l = Some o) as Hkeep.
  { intros l o Hl Ho. rewrite list_lookup_insert_ne; [done|].
    destruct Hl as [Hl%P_old | Hl]; lia. }
  split; [|split].
  - intros l o Hl Ho. pose proof (P_old _ Hl).
    rewrite list_lookup_insert_ne by lia.
    rewrite Hsame by lia. by apply Hold.
  - apply list_lookup_insert_eq. lia.
  - apply entries_set.
    + eapply Forall2_impl; [exact Hitems|].
      intros kl kv [Hk Hr]. split; [done|].
      eapply (reads_moved (built hc)); [| |exact Hr].
      * unfold built. rewrite length_insert. intros l [?|?]; [by left | right; lia].
      * intros l o Hl Ho. apply Hkeep.
        -- destruct Hl as [?|?]; [by left | right; lia].
        -- rewrite Hsame; [done | by eapply lookup_lt_Some].
    + eapply (reads_moved (built h1)); [| exact Hkeep | exact Hx].
      unfold built. by rewrite length_insert.
Qed.

Lemma merge_loop_refines n : forall i hc ritems cur h2,
  under_construction hc ritems cur ->
  merge_loop rec (length h) override n i hc = Some h2 ->
  length oitems = (n + i)%nat ->
  exists ritems2,
    (length hc <= length h2)%nat /\
    under_construction h2 ritems2 (Config.merge_loop (drop i ov) cur).
Proof.
  induction n as [|n IH]; intros i hc ritems cur h2 Hinv Hloop Hi.
  - injection Hloop as <-. exists ritems. split; [done|].
    rewrite drop_ge; [done|].
    rewrite <- (Forall2_length _ _ _ override_reads). simpl in Hi. lia.
  - pose proof Hinv as (Hold & Hres & Hitems).
    assert (length h < length hc)%nat as Hlt by (by eapply lookup_lt_Some).
    apply merge_loop_S in Hloop
      as (oitems' & key & value & h' & Hov & Hkey & Hround & Hrest).
    rewrite (Hold _ _ P_override override_dict) in Hov. injection Hov as <-.
    destruct (Forall2_lookup_l _ _ _ _ _ override_reads Hkey)
      as ([key' v] & Hv & Hk & Hvalue).
    simpl in Hk, Hvalue. subst key'.
    rewrite (drop_S _ _ _ Hv), Config.merge_loop_step.
    assert (reads (built hc) d hc value v) as Hvalue'.
    { eapply (reads_moved P); [| exact Hold | exact Hvalue]. by left. }
    pose proof (entries_get _ key _ _ Hitems) as Hget.
    assert (exists ritems' cur',
              (length hc <= length h')%nat /\
              under_construction h' ritems' cur' /\
              cur' = dict_set key (Config.merged_entry (dict_get key cur) v) cur)
      as (ritems' & cur' & Hlen & Hinv' & ->).
    { destruct Hround as [ritems0 current merged h1 Hr Hcur Hd Hcall Hset
                         | ritems0 Hr Hcur Hset];
        rewrite Hres in Hr; injection Hr as <-.
      - rewrite Hcur in Hget.
        destruct (dict_get key cur) as [cv|] eqn:Hcv; [|done].
        apply andb_true_iff in Hd as [Hdc Hdv].
        destruct (reads_dict _ _ _ _ _ Hget Hdc) as (r & ->).
        destruct (reads_dict _ _ _ _ _ Hvalue' Hdv) as (o' & ->).
        destruct (rec_frames _ _ _ _ _ Hcall) as (-> & Hlen1 & Hsame1).
        assert (forall l, built hc l -> (l < length hc)%nat) as Hbuilt.
        { intros l [?%P_old|?]; lia. }
        pose proof (rec_refines _ _ _ _ _ _ _ _ Hbuilt Hcall Hget Hvalue') as Hm.
        apply setitem_Some in Hset as (items & Hitems1 & ->).
        rewrite Hsame1, Hres in Hitems1 by lia. injection Hitems1 as <-.
        eexists _, _. split; [rewrite length_insert; lia|]. split.
        + apply (assign_refines hc h1 ritems cur key (length hc)
                   (VDict (Config.deep_merge r o')) Hinv);
            [lia | done |].
          eapply reads_moved; [| |exact Hm]; [|done].
          unfold built. intros l [[?|?]|?]; [by left | right; lia | right; lia].
        + done.
      - apply setitem_Some in Hset as (items & Hitems1 & ->).
        rewrite Hres in Hitems1. injection Hitems1 as <-.
        eexists _, _. split; [rewrite length_insert; lia|]. split.
        + by apply (assign_refines hc hc ritems cur key value v Hinv).
        + unfold Config.merged_entry.
          destruct (dict_get key ritems) as [current|];
            destruct (dict_get key cur) as [cv|]; try done.
          destruct cv as [| | | | | |r]; try done.
          destruct v as [| | | | | |o']; try done.
          apply reads_is_dict in Hget, Hvalue'.
          by rewrite Hget, Hvalue' in Hcur. }
    destruct (IH _ _ _ _ _ Hinv' Hrest ltac:(lia)) as (ritems2 & Hlen2 & Hinv2).
    exists ritems2. split; [lia | done].
Qed.

End Refinement.

Lemma deep_merge_refines_at fuel : forall d, refines (deep_merge fuel) d.
Proof.
  induction fuel as [|fuel IH]; intros d P b o h m h' bv ov HP Hcall Hb Ho; [done|].
  destruct d as [|d]; [done|].
  simpl in Hcall.
  destruct (dict_items h b) as [bitems|] eqn:Eb; [|done]. simpl in Hcall.
  destruct (dict_items _ o) as [oitems|] eqn:Eo; [|done]. simpl in Hcall.
  destruct (merge_loop _ _ _ _ _ _) as [h2|] eqn:Hloop; [|done].
  injection Hcall as <- <-.
  apply dict_items_Some in Eb, Eo.
  destruct (reads_items _ _ _ _ _ _ Hb Eb) as (HPb & kvs & [= <-] & Hbitems).
  assert (P o) as HPo by (by destruct Ho).
  rewrite lookup_app_l in Eo by (by apply HP).
  destruct (reads_items _ _ _ _ _ _ Ho Eo) as (_ & kvs & [= <-] & Hoitems).
  assert (forall l x, P l -> h !! l = Some x -> (h ++ [ODict bitems]) !! l = Some x)
    as Hold.
  { intros l x _ Hl. by apply lookup_app_l_Some. }
  destruct (merge_loop_refines (deep_merge fuel) d (deep_merge_frames fuel) (IH d)
              P h o oitems ov HP HPo Eo Hoitems (length oitems) 0%nat
              (h ++ [ODict bitems]) bitems bv h2)
    as (ritems2 & Hlen & _ & Hres & Hitems); [|done|lia|].
  { split; [done|]. split; [by apply list_lookup_middle|].
    eapply Forall2_impl; [exact Hbitems|].
    intros kl kv [Hk Hr]. split; [done|].
    eapply (reads_moved P); [| exact Hold | exact Hr]. by left. }
  rewrite length_app in Hlen. simpl in Hlen.
  simpl. split; [right; lia|]. rewrite Hres.
  exists (Config.deep_merge bv ov). split; [done|].
  rewrite Config.deep_merge_unfold. rewrite drop_0 in Hitems.
  eapply Forall2_impl; [exact Hitems|].
  intros kl kv [Hk Hr]. split; [done|].
  eapply reads_moved; [| |exact Hr]; [|done].
  unfold built. intros l [?|?]; [by left | right; lia].
Qed.

(** X9. The call over the store computes the merge of the values: where [base]
    and [override] read as the dicts [b] and [o] before the call, the
    result reads as [Config.deep_merge b o] after it. *)
Theorem deep_merge_refines fuel base override h result h' depth b o :
  deep_merge fuel base override h = Some (result, h') ->
  read depth h base = Some (VDict b) ->
  read depth h override = Some (VDict o) ->
  read depth h' result = Some (VDict (Config.deep_merge b o)).
Proof.
  intros Hcall Hb%read_reads Ho%read_reads.
  eapply reads_read.
  by apply (deep_merge_refines_at fuel depth _ _ _ _ _ _ _ _ (fun l H => H) Hcall Hb Ho).
Qed.

Lemma deep_merge_refines_witness :
  exists b o,
    read 3 two_docs 3 = Some (VDict b) /\
    read 3 two_docs 6 = Some (VDict o) /\
    read 3 merged_docs 7 = Some (VDict (Config.deep_merge b o)).
Proof.
  eexists _, _. split; [reflexivity|]. split; [reflexivity|].
  apply (deep_merge_refines 2 3 6 two_docs 7 merged_docs 3); reflexivity.
Defined.

End HeapFacts.

(* ===================================================================== *)
(** ** More on the routes *)
(* ===================================================================== *)

Module HealthFacts.
Import Py Config Health.

(** app.py:39 [index]: the template it renders and the context it passes. *)
Definition index (config_toml config_local_toml : document)
    : outcome (string * dict) :=
  obind (load_config config_toml config_local_toml) (fun config =>
  obind (py_get (VDict config) "services" (VDict [])) (fun services =>
  Ok ("index.html", [("services", services)]))).

(** A configuration with a service that has no [url] and an entry that is
    no table. *)
Definition sparse : dict :=
  [ ("services", VDict [("wiki", VDict [("name", VStr "Wiki")]);
                        ("git", VStr "http://git.lan")]) ].

(** *** The dashboard and the health route *)

Lemma index_loaded config_toml config_local_toml config :
  load_config config_toml config_local_toml = Ok config ->
  index config_toml config_local_toml =
  Ok ("index.html", [("services", services_of config)]).
Proof. unfold index, services_of. by intros ->. Qed.

(** X10. The ids the dashboard is given are the ids the health route knows: it
    answers "not found" for an id exactly when the table passed to the
    template has no such key. *)
Theorem index_lists_known_services net config_toml config_local_toml
    template services service_id :
  index config_toml config_local_toml = Ok (template, [("services", VDict services)]) ->
  template = "index.html" /\
  (dict_get service_id services = None <->
   health_check net config_toml config_local_toml service_id = Ok not_found).
Proof.
  intros Hindex.
  destruct (load_config config_toml config_local_toml) as [config|e] eqn:Hload;
    [|by unfold index in Hindex; rewrite Hload in Hindex].
  rewrite (index_loaded _ _ _ Hload) in Hindex.
  injection Hindex as <- Hs. split; [done|].
  rewrite (health_check_loaded net _ _ _ _ service_id Hload Hs).
  destruct (dict_get service_id services) as [service|]; [|done].
  split; [done|]. destruct service; try done. simpl.
  by intros H200%probe_status.
Qed.

Lemma index_lists_known_services_witness :
  "index.html" = "index.html" /\
  (dict_get "svn" [("wiki", VDict [("name", VStr "Wiki")]); ("git", VStr "http://git.lan")]
     = None <->
   health_check lan (Some sparse) None "svn" = Ok not_found).
Proof.
  apply (index_lists_known_services lan (Some sparse) None). reflexivity.
Defined.

(** X11. Over a services table, the route raises exactly for an id whose entry
    is not a table, and what it raises is [AttributeError]. *)
Theorem health_check_raises net config_toml config_local_toml config
    services service_id :
  load_config config_toml config_local_toml = Ok config ->
  services_of config = VDict services ->
  health_check net config_toml config_local_toml service_id = Raised AttributeError <->
  exists entry, dict_get service_id services = Some entry /\ is_dict entry = false.
Proof.
  intros Hload Hs.
  rewrite (health_check_loaded net _ _ _ _ service_id Hload Hs).
  destruct (dict_get service_id services) as [service|].
  - destruct service; simpl; split; try done; eauto;
      try (by intros (entry & [= <-] & ?)).
    by intros [_ ?]%probe_raises.
  - split; [done|]. by intros (entry & ? & _).
Qed.

Lemma health_check_raises_witness :
  health_check lan (Some sparse) None "git" = Raised AttributeError <->
  exists entry,
    dict_get "git" [("wiki", VDict [("name", VStr "Wiki")]); ("git", VStr "http://git.lan")]
      = Some entry /\ is_dict entry = false.
Proof.
  by apply (health_check_raises lan (Some sparse) None sparse).
Defined.

(** *** What the route answers *)

Lemma probe_shape net url r :
  probe net url = Ok r ->
  status r = 200 /\
  exists ms,
    body r = [("status", VStr "up"); ("latency_ms", VInt ms)] \/
    body r = [("status", VStr "down"); ("latency_ms", VInt ms)] \/
    body r = [("status", VStr "down"); ("latency_ms", VNone)].
Proof.
  unfold probe. destruct (requests_get net url) as [code| |]; [| |done].
  - destruct (code <? 500)%Z; intros [= <-]; (split; [done|]);
      eexists; simpl; eauto.
  - intros [= <-]. split; [done|]. exists 0. simpl. eauto.
Qed.

(** X12. Whatever the configuration, the id and the network, an answer of the
    route is a 404 with status unknown, or a 200 with status up and an
    integer latency, or a 200 with status down and a latency that is an
    integer or [None]. *)
Theorem health_check_answers net config_toml config_local_toml service_id r :
  health_check net config_toml config_local_toml service_id = Ok r ->
  (status r = 404 /\
   body r = [("status", VStr "unknown"); ("error", VStr "Service not found")]) \/
  (status r = 200 /\
   exists ms,
     body r = [("status", VStr "up"); ("latency_ms", VInt ms)] \/
     body r = [("status", VStr "down"); ("latency_ms", VInt ms)] \/
     body r = [("status", VStr "down"); ("latency_ms", VNone)]).
Proof.
  unfold health_check.
  destruct (load_config config_toml config_local_toml) as [config|]; [|done]. simpl.
  destruct (contains _ service_id) as [[]|]; simpl; [| |done].
  - destruct (subscript _ service_id) as [service|]; [|done]. simpl.
    destruct (py_get service "url" (VStr "")) as [url|]; [|done]. simpl.
    intros Hr. right. by eapply probe_shape.
  - intros [= <-]. by left.
Qed.

Lemma health_check_answers_witness :
  (status not_found = 404 /\
   body not_found = [("status", VStr "unknown"); ("error", VStr "Service not found")]) \/
  (status not_found = 200 /\
   exists ms,
     body not_found = [("status", VStr "up"); ("latency_ms", VInt ms)] \/
     body not_found = [("status", VStr "down"); ("latency_ms", VInt ms)] \/
     body not_found = [("status", VStr "down"); ("latency_ms", VNone)]).
Proof.
  by apply (health_check_answers lan (Some sparse) None "svn" not_found).
Defined.

End HealthFacts.

(* ===================================================================== *)
(** ** More on the daemon controller *)
(* ===================================================================== *)

Module DaemonFacts.
Import Py Daemon.
#[local] Open Scope daemon_scope.

(** What [main] prints itself. *)
Inductive main_line : Type :=
| Usage                               (* print(__doc__) *)
| UnknownCommand (command : string).  (* Unknown command: {command} *)

(** The id a PID file text denotes, if the file is there and denotes one. *)
Definition recorded_pid (int_strip : string -> option Z) (w : world) : option Z :=
  match pid_file w with
  | Some text => int_strip text
  | None => None
  end.

(** What a list of events weighs, each event weighing [weight]. *)
Definition spent (weight : event -> N) (evs : list event) : N :=
  foldr (fun e n => (weight e + n)%N) 0%N evs.

(** A statement run in [w] adds to the trace events that weigh at most
    [bound]. *)
Definition run_spends (weight : event -> N) {A} (bound : N) (m : M A) (w : world)
    : Prop :=
  exists evs, trace (snd (m w)) = trace w ++ evs /\ (spent weight evs <= bound)%N.

(** Signals that are delivered: anything [os.kill] sends but the probe. *)
Definition delivers (e : event) : N :=
  match e with
  | Kill _ SIGTERM | Kill _ SIGKILL => 1
  | _ => 0
  end.

(** Anything done but probing, removing the PID file and printing. *)
Definition acts (e : event) : N :=
  match e with
  | Kill _ SIG0 | Unlink | Print _ => 0
  | _ => 1
  end.

(** A spawn, or a call of [os.kill] on an id other than [pid]. *)
Definition strays (pid : option Z) (e : event) : N :=
  match e with
  | Run => 1
  | Kill p _ =>
      match pid with
      | Some r => if (p =? r)%Z then 0 else 1
      | None => 1
      end
  | _ => 0
  end.

(** A signal delivered to an id other than [pid]. *)
Definition stray_signals (pid : option Z) (e : event) : N :=
  match e with
  | Kill p SIGTERM | Kill p SIGKILL =>
      match pid with
      | Some r => if (p =? r)%Z then 0 else 1
      | None => 1
      end
  | _ => 0
  end.

(** Milliseconds slept. *)
Definition sleeps (e : event) : N :=
  match e with
  | Sleep ms => Z.to_N ms
  | _ => 0
  end.

(** Calls of [subprocess.run]. *)
Definition spawns (e : event) : N :=
  match e with
  | Run => 1
  | _ => 0
  end.

Section Main.

Variable int_strip : string -> option Z.
Variable env : environment.

(** [str.lower] *)
Variable lower : string -> string.

(** server.py:129 [main]: what it prints itself, and the statement it goes
    on with: the command, or just the return of 1. *)
Definition main (argv : list string) : list main_line * M Z :=
  match argv with
  | _ :: arg :: _ =>
      let command := lower arg in
      match dict_get command (commands int_strip env) with
      | Some run => ([], run)
      | None => ([UnknownCommand command; Usage], ret 1)
      end
  | _ => ([Usage], ret 1)
  end.

End Main.

Section Commands.

Variable int_strip : string -> option Z.
Variable env : environment.

Abbreviation get_pid := (get_pid int_strip env).
Abbreviation start := (start int_strip env).
Abbreviation stop := (stop int_strip env).
Abbreviation restart := (restart int_strip env).
Abbreviation status := (status int_strip env).
Abbreviation Running := (Running int_strip env).
Abbreviation Stale := (Stale int_strip env).
Abbreviation Stopped := (Stopped int_strip env).
Abbreviation recorded_pid := (recorded_pid int_strip).

Arguments wait_loop : simpl never.

Ltac run :=
  unfold Daemon.get_pid, Daemon.start, Daemon.stop, Daemon.restart, Daemon.status,
    bind, try_except, ret, raise, exists_, read_text, int_, os_kill,
    unlink, print, log, sleep, subprocess_run; simpl.

Tactic Notation "run" "with" constr(H1) :=
  run; repeat (progress (rewrite ?H1; simpl)).
Tactic Notation "run" "with" constr(H1) constr(H2) :=
  run; repeat (progress (rewrite ?H1, ?H2; simpl)).
Tactic Notation "run" "with" constr(H1) constr(H2) constr(H3) :=
  run; repeat (progress (rewrite ?H1, ?H2, ?H3; simpl)).
Tactic Notation "run" "with" constr(H1) constr(H2) constr(H3) constr(H4) :=
  run; repeat (progress (rewrite ?H1, ?H2, ?H3, ?H4; simpl)).

(** *** [get_pid] *)

(** The world once [get_pid] has removed a PID file it could not read. *)
Definition unreadable (w : world) : world :=
  {| pid_file := None; clock := clock w; trace := trace w ++ [Unlink] |}.

(** The five ways [get_pid] goes. *)
Lemma get_pid_cases w :
  (pid_file w = None /\ get_pid w = (Ok None, w)) \/
  ((exists text, pid_file w = Some text /\ int_strip text = None) /\
   get_pid w = (Ok None, unreadable w)) \/
  (exists pid, Stale w pid /\ recorded_pid w = Some pid /\
     get_pid w = (Ok None, cleaned pid w)) \/
  (exists pid, recorded_pid w = Some pid /\ c_int pid = true /\
     process env (clock w) pid = Alive /\
     get_pid w = (Ok (Some pid), probed pid w)) \/
  (exists pid, recorded_pid w = Some pid /\ c_int pid = false /\
     get_pid w = (Raised OverflowError, w)).
Proof.
  unfold recorded_pid, DaemonFacts.recorded_pid.
  destruct (pid_file w) as [text|] eqn:Hf.
  - destruct (int_strip text) as [pid|] eqn:Hp.
    + destruct (c_int pid) eqn:Hc.
      * destruct (process env (clock w) pid) eqn:Hlive.
        -- right. right. right. left. exists pid. repeat split; try done.
           unfold probed. by run with Hf Hp Hc Hlive.
        -- right. right. left. exists pid.
           assert (Stale w pid) as Hst by (exists text; by rewrite Hlive).
           split; [done|]. split; [done|]. by apply get_pid_stale.
        -- right. right. left. exists pid.
           assert (Stale w pid) as Hst by (exists text; by rewrite Hlive).
           split; [done|]. split; [done|]. by apply get_pid_stale.
      * right. right. right. right. exists pid. repeat split; try done.
        by run with Hf Hp Hc.
    + right. left. split; [eauto|]. by apply (get_pid_unreadable _ _ _ text).
  - left. split; [done|]. by apply get_pid_absent.
Qed.

(** X14. When [get_pid] answers [None] no PID file is left; when it
    answers an id, the PID file is as it was, it names that id, the id fits
    a C [int] and the probe found the process.  When the PID file names an
    id that does not fit a C [int], [get_pid] raises [OverflowError], which
    its handler does not name, and leaves the world as it was, the PID file
    in place. *)
Theorem get_pid_answers w :
  (forall answer w', get_pid w = (Ok answer, w') ->
     match answer with
     | None => pid_file w' = None
     | Some pid =>
         pid_file w' = pid_file w /\ recorded_pid w = Some pid /\
         c_int pid = true /\ process env (clock w) pid = Alive
     end) /\
  (forall pid, recorded_pid w = Some pid -> c_int pid = false ->
     get_pid w = (Raised OverflowError, w)).
Proof.
  destruct (get_pid_cases w)
    as [[Hf Hg] | [[(text & Hf & Hp) Hg] | [(pid & Hst & Hr & Hg)
       | [(pid & Hr & Hc & Hlive & Hg) | (pid & Hr & Hc & Hg)]]]];
    (split; [intros answer w'; rewrite Hg; try done; by intros [= <- <-]|]);
    intros pid' Hr' Hc'.
  - unfold recorded_pid, DaemonFacts.recorded_pid in Hr'. by rewrite Hf in Hr'.
  - unfold recorded_pid, DaemonFacts.recorded_pid in Hr'. rewrite Hf in Hr'. congruence.
  - destruct Hst as (text & Hf & Hp & Hc & _). congruence.
  - congruence.
  - congruence.
Qed.

(** *** [status] *)

(** X15. [status] returns 0 exactly when the daemon is running, and when it
    returns anything else it returns 1.  When the PID file names an id that
    does not fit a C [int], [status] raises the [OverflowError] of
    [get_pid]. *)
Theorem status_exit_code w :
  (fst (status w) = Ok 0 <-> exists pid, Running w pid) /\
  (forall code, fst (status w) = Ok code -> code = 0 \/ code = 1) /\
  (forall pid, recorded_pid w = Some pid -> c_int pid = false ->
     status w = (Raised OverflowError, w)).
Proof.
  unfold Daemon.status, bind.
  destruct (get_pid_cases w)
    as [[Hf ->] | [[(text & Hf & Hp) ->] | [(pid & Hst & Hr & ->)
       | [(pid & Hr & Hc & Hlive & ->) | (pid & Hr & Hc & ->)]]]];
    simpl.
  - split; [|split; [by intros code [= <-]; right|]].
    + split; [done|]. intros (pid & text & Hf' & _). congruence.
    + intros pid Hr _.
      unfold recorded_pid, DaemonFacts.recorded_pid in Hr. by rewrite Hf in Hr.
  - split; [|split; [by intros code [= <-]; right|]].
    + split; [done|]. intros (pid & text' & Hf' & Hp' & _). congruence.
    + intros pid Hr _.
      unfold recorded_pid, DaemonFacts.recorded_pid in Hr. rewrite Hf in Hr.
      congruence.
  - destruct Hst as (text & Hf & Hp & Hc & Hdead).
    split; [|split; [by intros code [= <-]; right|]].
    + split; [done|]. intros (pid' & text' & Hf' & Hp' & _ & _ & Hlive).
      congruence.
    + intros pid' Hr' Hc'. congruence.
  - unfold recorded_pid, DaemonFacts.recorded_pid in Hr.
    destruct (pid_file w) as [text|] eqn:Hf; [|done].
    destruct (pid =? 0)%Z eqn:Hz; simpl.
    + split; [|split; [by intros code [= <-]; right|]].
      * split; [done|]. intros (pid' & text' & Hf' & Hp' & Hnz & _).
        apply Z.eqb_eq in Hz. congruence.
      * intros pid' Hr' Hc'.
        unfold recorded_pid, DaemonFacts.recorded_pid in Hr'. rewrite Hf in Hr'.
        congruence.
    + split; [|split; [by intros code [= <-]; left|]].
      * split; [|done]. intros _. exists pid, text.
        apply Z.eqb_neq in Hz. done.
      * intros pid' Hr' Hc'.
        unfold recorded_pid, DaemonFacts.recorded_pid in Hr'. rewrite Hf in Hr'.
        congruence.
  - split; [|split; [done|]].
    + split; [done|]. intros (pid' & text' & Hf' & Hp' & _ & Hc' & _).
      unfold recorded_pid, DaemonFacts.recorded_pid in Hr. rewrite Hf' in Hr.
      congruence.
    + intros pid' Hr' _. done.
Qed.

(** *** What the operations add to the trace *)

Section Spending.

Variable weight : event -> N.

Abbreviation run_spends := (run_spends weight).

Lemma spent_app evs1 evs2 :
  spent weight (evs1 ++ evs2) = (spent weight evs1 + spent weight evs2)%N.
Proof. induction evs1 as [|e evs1 IH]; simpl; [done|]. rewrite IH. lia. Qed.

Lemma spends_weaken {A} b b' (m : M A) w :
  (b <= b')%N -> run_spends b m w -> run_spends b' m w.
Proof. intros Hle (evs & Ht & Hb). exists evs. split; [done|lia]. Qed.

Lemma spends_nothing {A} b (m : M A) w :
  trace (snd (m w)) = trace w -> run_spends b m w.
Proof. intros Ht. exists []. rewrite app_nil_r. split; [done|simpl; lia]. Qed.

Lemma spends_events {A} b (m : M A) w evs :
  trace (snd (m w)) = trace w ++ evs -> (spent weight evs <= b)%N ->
  run_spends b m w.
Proof. intros Ht Hb. by exists evs. Qed.

Lemma spends_bind {A B} b1 b2 b (m : M A) (k : A -> M B) w :
  (b1 + b2 <= b)%N ->
  run_spends b1 m w ->
  (forall a w', m w = (Ok a, w') -> run_spends b2 (k a) w') ->
  run_spends b (bind m k) w.
Proof.
  intros Hb (evs1 & Ht1 & Hb1) Hk. unfold DaemonFacts.run_spends, bind.
  destruct (m w) as [[a|e] w'] eqn:Hm; simpl in Ht1.
  - destruct (Hk a w' eq_refl) as (evs2 & Ht2 & Hb2). simpl.
    exists (evs1 ++ evs2). rewrite Ht2, Ht1, app_assoc, spent_app.
    split; [done|lia].
  - exists evs1. split; [done|lia].
Qed.

Lemma spends_try {A} b1 b2 b (body handler : M A) handled w :
  (b1 + b2 <= b)%N ->
  run_spends b1 body w ->
  (forall e w', body w = (Raised e, w') -> handled e = true ->
     run_spends b2 handler w') ->
  run_spends b (try_except body handled handler) w.
Proof.
  intros Hb (evs1 & Ht1 & Hb1) Hh. unfold DaemonFacts.run_spends, try_except.
  destruct (body w) as [[a|e] w'] eqn:Hm; simpl in Ht1.
  - exists evs1. split; [done|lia].
  - destruct (handled e) eqn:He.
    + destruct (Hh e w' eq_refl He) as (evs2 & Ht2 & Hb2). simpl.
      exists (evs1 ++ evs2). rewrite Ht2, Ht1, app_assoc, spent_app.
      split; [done|lia].
    + exists evs1. split; [done|lia].
Qed.

Lemma spends_ret {A} b (a : A) w : run_spends b (ret a) w.
Proof. by apply spends_nothing. Qed.

Lemma spends_print b m w :
  (weight (Print m) <= b)%N -> run_spends b (print m) w.
Proof. intros Hb. apply (spends_events _ _ _ [Print m]); simpl; [done|lia]. Qed.

Lemma spends_unlink b w : (weight Unlink <= b)%N -> run_spends b unlink w.
Proof. intros Hb. apply (spends_events _ _ _ [Unlink]); simpl; [done|lia]. Qed.

Lemma spends_os_kill b pid sig w :
  (weight (Kill pid sig) <= b)%N -> run_spends b (os_kill env pid sig) w.
Proof.
  intros Hb. unfold os_kill. destruct (c_int pid) eqn:Hc.
  - apply (spends_events _ _ _ [Kill pid sig]); simpl; [|lia].
    by destruct (process env (clock w) pid).
  - by apply spends_nothing.
Qed.

Lemma spends_sleep b ms w :
  (weight (Sleep ms) <= b)%N -> run_spends b (sleep env ms) w.
Proof. intros Hb. apply (spends_events _ _ _ [Sleep ms]); simpl; [done|lia]. Qed.

Lemma spends_subprocess_run b w :
  (weight Run <= b)%N -> run_spends b (subprocess_run env) w.
Proof. intros Hb. apply (spends_events _ _ _ [Run]); simpl; [done|lia]. Qed.

Lemma get_pid_Some w pid w' :
  get_pid w = (Ok (Some pid), w') -> recorded_pid w = Some pid /\ pid_file w' = pid_file w.
Proof.
  destruct (get_pid_cases w)
    as [[Hf ->] | [[_ ->] | [(p & _ & _ & ->)
       | [(p & Hr & _ & Hlive & ->) | (p & _ & _ & ->)]]]]; try done.
  by intros [= <- <-].
Qed.

Lemma get_pid_spends b w :
  (weight Unlink <= b)%N ->
  (forall pid, recorded_pid w = Some pid ->
     (weight (Kill pid SIG0) + weight Unlink <= b)%N) ->
  run_spends b get_pid w.
Proof.
  intros Hu Hk.
  destruct (get_pid_cases w)
    as [[Hf Hg] | [[_ Hg] | [(p & _ & Hr & Hg)
       | [(p & Hr & _ & Hlive & Hg) | (p & _ & _ & Hg)]]]].
  5:{ apply spends_nothing. by rewrite Hg. }
  - apply spends_nothing. by rewrite Hg.
  - apply (spends_events _ _ _ [Unlink]); [by rewrite Hg|]. simpl. lia.
  - apply (spends_events _ _ _ [Kill p SIG0; Unlink]); [by rewrite Hg|].
    specialize (Hk p Hr). simpl. lia.
  - apply (spends_events _ _ _ [Kill p SIG0]); [by rewrite Hg|].
    specialize (Hk p Hr). simpl. lia.
Qed.

Lemma spent_polls pid k :
  spent weight (polls pid k) =
  (N.of_nat k * (weight (Sleep 1000) + weight (Kill pid SIG0)))%N.
Proof.
  induction k as [|k IH]; [done|].
  rewrite polls_S, spent_app, IH. simpl. lia.
Qed.

(** The wait loop adds some rounds of sleeping and probing, and at most
    once, at the end, the removal of the PID file and its message. *)
Lemma wait_loop_trace pid n : c_int pid = true -> forall w,
  exists k, (k <= n)%nat /\
    (trace (snd (wait_loop env pid n w)) = trace w ++ polls pid k \/
     trace (snd (wait_loop env pid n w)) =
       trace w ++ polls pid k ++ [Unlink; Print ServerStopped]).
Proof.
  intros Hc. induction n as [|n IH]; intros w.
  - exists 0%nat. split; [done|]. left. simpl. by rewrite app_nil_r.
  - destruct (process env (S (clock w)) pid) eqn:Hlive.
    + rewrite (wait_loop_step env pid n w Hc Hlive).
      destruct (IH (after_polls env pid 1 w)) as (k & Hk & Ht).
      exists (S k). split; [lia|]. rewrite polls_S.
      destruct Ht as [-> | ->]; [left | right]; simpl; by rewrite <- !app_assoc.
    + exists 1%nat. split; [lia|]. right.
      rewrite wait_loop_S. run with Hc Hlive. by rewrite <- !app_assoc.
    + exists 1%nat. split; [lia|]. left.
      rewrite wait_loop_S. run with Hc Hlive. by rewrite <- !app_assoc.
Qed.

(** On an id that does not fit a C [int] the first probe raises, after the
    first sleep. *)
Lemma wait_loop_overflow pid n w :
  c_int pid = false ->
  trace (snd (wait_loop env pid n w)) =
  trace w ++ match n with O => [] | S _ => [Sleep 1000] end.
Proof.
  intros Hc. destruct n as [|n].
  - simpl. by rewrite app_nil_r.
  - rewrite wait_loop_S. by run with Hc.
Qed.

Lemma wait_loop_spends pid n b w :
  (N.of_nat n * (weight (Sleep 1000) + weight (Kill pid SIG0))
   + (weight Unlink + weight (Print ServerStopped)) <= b)%N ->
  run_spends b (wait_loop env pid n) w.
Proof.
  intros Hb. destruct (c_int pid) eqn:Hc.
  - destruct (wait_loop_trace pid n Hc w) as (k & Hk & [Ht | Ht]).
    + apply (spends_events _ _ _ _ Ht). rewrite spent_polls. nia.
    + apply (spends_events _ _ _ _ Ht). rewrite spent_app, spent_polls. simpl. nia.
  - apply (spends_events _ _ _ _ (wait_loop_overflow pid n w Hc)).
    destruct n as [|n]; simpl; nia.
Qed.

(** What the four operations spend, for a weight that counts neither
    prints nor the removal of the PID file. *)
Section Operations.

Hypothesis free_print : forall m, weight (Print m) = 0%N.
Hypothesis free_unlink : weight Unlink = 0%N.

Ltac free :=
  rewrite ?free_print, ?free_unlink; lia.

Lemma status_spends w :
  (forall pid, weight (Kill pid SIG0) = 0%N) ->
  run_spends 0 status w.
Proof.
  intros Hprobe. unfold Daemon.status.
  apply (spends_bind 0 0); [lia | apply get_pid_spends; [|intros pid _; rewrite Hprobe]; free |].
  intros a w' _. destruct (truthy a);
    (apply (spends_bind 0 0); [lia | apply spends_print; free | intros _ ? _; apply spends_ret]).
Qed.

Lemma start_spends b w :
  (forall pid, weight (Kill pid SIG0) = 0%N) ->
  (weight Run + weight (Sleep 500) <= b)%N ->
  run_spends b start w.
Proof.
  intros Hprobe Hb. unfold Daemon.start.
  apply (spends_bind 0 b); [lia | apply get_pid_spends; [|intros pid _; rewrite Hprobe]; free |].
  intros a w' _. destruct (truthy a).
  - apply (spends_bind 0 0); [lia | apply spends_print; free | intros _ ? _; apply spends_ret].
  - apply (spends_bind (weight Run) (weight (Sleep 500))); [lia | by apply spends_subprocess_run |].
    intros result w1 _. destruct (result =? 0)%Z.
    + apply (spends_bind (weight (Sleep 500)) 0); [lia | by apply spends_sleep |].
      intros _ w2 _.
      apply (spends_bind 0 0);
        [lia | apply get_pid_spends; [|intros pid _; rewrite Hprobe]; free |].
      intros a' w3 _. destruct (truthy a');
        (apply (spends_bind 0 0); [lia | apply spends_print; free | intros _ ? _; apply spends_ret]).
    + apply (spends_bind 0 0); [lia | apply spends_print; free | intros _ ? _; apply spends_ret].
Qed.

Lemma stop_spends b w :
  (forall pid sig, recorded_pid w = Some pid -> weight (Kill pid sig) = 0%N) ->
  (30 * weight (Sleep 1000) <= b)%N ->
  run_spends b stop w.
Proof.
  intros Hkill Hb. unfold Daemon.stop.
  apply (spends_bind 0 b);
    [lia | apply get_pid_spends; [|intros pid Hr; rewrite (Hkill _ _ Hr)]; free |].
  intros a w' Hget. destruct (truthy a) as [pid|] eqn:Htruthy.
  - destruct a as [p|]; [|done]. simpl in Htruthy.
    destruct (p =? 0)%Z; [done|]. injection Htruthy as ->.
    destruct (get_pid_Some _ _ _ Hget) as [Hr _].
    apply (spends_try b 0); [lia| |].
    + apply (spends_bind 0 b); [lia | apply spends_os_kill; rewrite (Hkill _ _ Hr); lia |].
      intros _ w1 _.
      apply (spends_bind 0 b); [lia | apply spends_print; free |].
      intros _ w2 _.
      apply (spends_bind b 0);
        [lia | apply wait_loop_spends; rewrite (Hkill _ _ Hr); free |].
      intros returned w3 _. destruct returned; [apply spends_ret|].
      apply (spends_bind 0 0); [lia | apply spends_print; free | intros _ ? _].
      apply (spends_bind 0 0);
        [lia | apply spends_os_kill; rewrite (Hkill _ _ Hr); lia | intros _ ? _].
      apply (spends_bind 0 0); [lia | apply spends_unlink; free | intros _ ? _].
      apply (spends_bind 0 0); [lia | apply spends_print; free | intros _ ? _; apply spends_ret].
    + intros e w1 _ _.
      apply (spends_bind 0 0); [lia | apply spends_unlink; free | intros _ ? _].
      apply (spends_bind 0 0); [lia | apply spends_print; free | intros _ ? _; apply spends_ret].
  - apply (spends_bind 0 0); [lia | apply spends_print; free | intros _ ? _; apply spends_ret].
Qed.

Lemma restart_spends b w :
  (forall pid, weight (Kill pid SIG0) = 0%N) ->
  (forall pid sig, recorded_pid w = Some pid -> weight (Kill pid sig) = 0%N) ->
  (30 * weight (Sleep 1000) + (weight Run + weight (Sleep 500)) <= b)%N ->
  run_spends b restart w.
Proof.
  intros Hprobe Hkill Hb. unfold Daemon.restart.
  apply (spends_bind 0 b);
    [lia | apply get_pid_spends; [|intros pid _; rewrite Hprobe]; free |].
  intros a w' Hget.
  apply (spends_bind (30 * weight (Sleep 1000)) (weight Run + weight (Sleep 500)));
    [lia | | intros _ w1 _; by apply start_spends].
  destruct (truthy a) as [pid|] eqn:Htruthy; [|apply spends_ret].
  destruct a as [p|]; [|done].
  destruct (get_pid_Some _ _ _ Hget) as [Hr Hfile].
  apply (spends_bind (30 * weight (Sleep 1000)) 0);
    [lia | | intros _ ? _; apply spends_ret].
  apply stop_spends; [|lia].
  intros q sig Hq. apply Hkill.
  unfold recorded_pid, DaemonFacts.recorded_pid in *. by rewrite <- Hfile.
Qed.

End Operations.

(** The events a run added are those any bound speaks of. *)
Lemma spends_these {A} b (m : M A) w evs :
  trace (snd (m w)) = trace w ++ evs ->
  run_spends b m w -> (spent weight evs <= b)%N.
Proof.
  intros Ht (evs' & Ht' & Hb). rewrite Ht in Ht'.
  apply app_inv_head in Ht'. by subst.
Qed.

End Spending.

(** *** What the operations never do *)

(** X16. [status] does nothing but probe, remove a stale PID file and print. *)
Theorem status_only_looks w :
  exists evs, trace (snd (status w)) = trace w ++ evs /\ spent acts evs = 0%N.
Proof.
  destruct (status_spends acts ltac:(done) ltac:(done) w ltac:(done))
    as (evs & Ht & Hb).
  exists evs. split; [done|lia].
Qed.

(** X17. [start] delivers no signal, spawns at most once and sleeps at most half
    a second. *)
Theorem start_effects w :
  exists evs,
    trace (snd (start w)) = trace w ++ evs /\
    spent delivers evs = 0%N /\
    (spent spawns evs <= 1)%N /\
    (spent sleeps evs <= 500)%N.
Proof.
  destruct (start_spends delivers ltac:(done) ltac:(done) 0 w ltac:(done) ltac:(done))
    as (evs & Ht & Hb).
  exists evs. split; [done|]. split; [lia|]. split.
  - apply (spends_these spawns _ start w evs Ht).
    by apply start_spends.
  - apply (spends_these sleeps _ start w evs Ht).
    by apply start_spends.
Qed.

(** X18. [stop] spawns nothing, calls [os.kill] on no id but the one the PID file
    names, and sleeps at most 30 seconds. *)
Theorem stop_effects w :
  exists evs,
    trace (snd (stop w)) = trace w ++ evs /\
    spent (strays (recorded_pid w)) evs = 0%N /\
    (spent sleeps evs <= 30000)%N.
Proof.
  assert (Hown : forall pid sig, recorded_pid w = Some pid ->
                 strays (recorded_pid w) (Kill pid sig) = 0%N).
  { intros pid sig ->. simpl. by rewrite Z.eqb_refl. }
  destruct (stop_spends (strays (recorded_pid w)) ltac:(done) ltac:(done) 0 w Hown
              ltac:(done)) as (evs & Ht & Hb).
  exists evs. split; [done|]. split; [lia|].
  apply (spends_these sleeps _ stop w evs Ht).
  by apply stop_spends.
Qed.

(** X19. [restart] delivers a signal to no id but the one the PID file names,
    spawns at most once and sleeps at most 30.5 seconds. *)
Theorem restart_effects w :
  exists evs,
    trace (snd (restart w)) = trace w ++ evs /\
    spent (stray_signals (recorded_pid w)) evs = 0%N /\
    (spent spawns evs <= 1)%N /\
    (spent sleeps evs <= 30500)%N.
Proof.
  assert (Hown : forall pid sig, recorded_pid w = Some pid ->
                 stray_signals (recorded_pid w) (Kill pid sig) = 0%N).
  { intros pid sig ->. simpl. rewrite Z.eqb_refl. by destruct sig. }
  destruct (restart_spends (stray_signals (recorded_pid w)) ltac:(done) ltac:(done) 0 w
              ltac:(done) Hown ltac:(done)) as (evs & Ht & Hb).
  exists evs. split; [done|]. split; [lia|]. split.
  - apply (spends_these spawns _ restart w evs Ht).
    by apply restart_spends.
  - apply (spends_these sleeps _ restart w evs Ht).
    by apply restart_spends.
Qed.

(** *** [stop], the other ways *)

(** The world once SIGTERM has gone out to a live [pid] and the message is
    printed. *)
Definition terminating (pid : Z) (w : world) : world :=
  {| pid_file := pid_file w; clock := S (S (clock w));
     trace := trace w ++ [Kill pid SIG0; Kill pid SIGTERM; Print (Stopping pid)] |}.

(** X20. [stop] on a stopped daemon returns 1, having sent nothing, and leaves no
    PID file. *)
Theorem stop_when_stopped w :
  Stopped w ->
  exists w1,
    get_pid w = (Ok None, w1) /\ pid_file w1 = None /\
    stop w = (Ok 1, {| pid_file := None; clock := clock w1;
                       trace := trace w1 ++ [Print NotRunning] |}).
Proof.
  intros Hst. destruct (get_pid_stopped _ _ _ Hst) as (w1 & Hget & Hnone).
  exists w1. split; [done|]. split; [done|].
  unfold Daemon.stop, bind. rewrite Hget. simpl.
  unfold print, log, bind, ret. simpl. by rewrite Hnone.
Qed.

Lemma stop_from_sigterm w pid :
  Running w pid -> process env (S (clock w)) pid = Alive ->
  stop w =
  try_except
    (returned <~ wait_loop env pid 30 ;;
     match returned with
     | Some code => ret code
     | None =>
         print Forcing ;;; os_kill env pid SIGKILL ;;; unlink ;;; print Killed ;;; ret 0
     end)
    is_ProcessLookupError
    (unlink ;;; print WasNotRunning ;;; ret 0)
    (terminating pid w).
Proof.
  intros Hrun Hterm. rewrite (stop_running _ _ _ _ Hrun).
  unfold probed, terminating, try_except, bind at 1 2, os_kill, print, log. simpl.
  rewrite (Running_c_int _ _ _ _ Hrun), Hterm. simpl. by rewrite <- !app_assoc.
Qed.

(** A round of the wait loop that meets a process it may not signal. *)
Lemma wait_loop_foreign pid n k : c_int pid = true -> forall w,
  (k < n)%nat ->
  (forall j, (j < k)%nat -> process env (clock w + 2 * j + 1)%nat pid = Alive) ->
  process env (clock w + 2 * k + 1)%nat pid = Foreign ->
  exists w',
    wait_loop env pid n w = (Raised PermissionError, w') /\
    trace w' = trace w ++ polls pid (S k).
Proof.
  intros Hc. revert n. induction k as [|k IH]; intros n w Hk Hlive Hforeign.
  - destruct n as [|n]; [lia|].
    replace (clock w + 2 * 0 + 1)%nat with (S (clock w)) in Hforeign by lia.
    eexists. split.
    + rewrite wait_loop_S. by run with Hc Hforeign.
    + simpl. by rewrite <- !app_assoc.
  - destruct n as [|n]; [lia|].
    rewrite wait_loop_step; [|done|].
    2:{ rewrite <- (Hlive 0%nat) by lia. f_equal. lia. }
    destruct (IH n (after_polls env pid 1 w)) as (w' & Hw & Ht).
    + lia.
    + intros j Hj. simpl. rewrite <- (Hlive (S j)) by lia. f_equal. lia.
    + simpl. rewrite <- Hforeign. f_equal. lia.
    + exists w'. split; [done|].
      rewrite Ht. simpl trace. rewrite (polls_S pid (S k)).
      by rewrite <- !app_assoc.
Qed.

(** X21. [stop] does not catch [PermissionError]: when SIGTERM ([k = 0]), or
    the probe of round [k] of the wait, meets a process it may not signal,
    [stop] raises; it has sent nothing after that call and has not removed
    the PID file. *)
Theorem stop_permission_error w pid k :
  Running w pid ->
  (k <= 30)%nat ->
  (forall j, (j < k)%nat -> process env (clock w + 2 * j + 1)%nat pid = Alive) ->
  process env (clock w + 2 * k + 1)%nat pid = Foreign ->
  exists w',
    stop w = (Raised PermissionError, w') /\
    trace w' =
      trace w ++ [Kill pid SIG0; Kill pid SIGTERM] ++
      match k with
      | O => []
      | S _ => Print (Stopping pid) :: polls pid k
      end.
Proof.
  intros Hrun Hk Hlive Hforeign.
  pose proof (Running_c_int _ _ _ _ Hrun) as Hc. destruct k as [|k].
  - replace (clock w + 2 * 0 + 1)%nat with (S (clock w)) in Hforeign by lia.
    eexists. split.
    + rewrite (stop_running _ _ _ _ Hrun).
      unfold probed. run with Hc Hforeign. reflexivity.
    + simpl. by rewrite <- !app_assoc.
  - assert (process env (S (clock w)) pid = Alive) as Hterm.
    { rewrite <- (Hlive 0%nat) by lia. f_equal. lia. }
    rewrite (stop_from_sigterm _ _ Hrun Hterm).
    destruct (wait_loop_foreign pid 30 k Hc (terminating pid w))
      as (w' & Hw & Ht).
    + lia.
    + intros j Hj. simpl. rewrite <- (Hlive (S j)) by lia. f_equal. lia.
    + simpl. rewrite <- Hforeign. f_equal. lia.
    + exists w'. split.
      * unfold try_except, bind. by rewrite Hw.
      * rewrite Ht. simpl trace. by rewrite <- !app_assoc.
Qed.

(** X22. When the process outlives all 30 probes and is gone when SIGKILL is
    sent, [stop] removes the PID file and returns 0 all the same. *)
Theorem stop_forced_too_late w pid :
  Running w pid ->
  process env (S (clock w)) pid = Alive ->
  (forall j, (1 <= j <= 30)%nat ->
     process env (clock w + 2 * j + 1)%nat pid = Alive) ->
  process env (clock w + 62)%nat pid = Gone ->
  exists w',
    stop w = (Ok 0, w') /\
    pid_file w' = None /\
    trace w' =
      trace w ++ [Kill pid SIG0; Kill pid SIGTERM; Print (Stopping pid)] ++
      polls pid 30 ++ [Print Forcing; Kill pid SIGKILL; Unlink; Print WasNotRunning].
Proof.
  intros Hrun Hterm Hlive Hgone.
  rewrite (stop_from_sigterm _ _ Hrun Hterm).
  set (w0 := terminating pid w).
  set (wp := after_polls env pid 30 w0).
  assert (Hloop : wait_loop env pid 30 w0 = (Ok None, wp)).
  { apply wait_loop_alive; [by eapply Running_c_int|]. intros j Hj. simpl.
    rewrite <- (Hlive (S j)) by lia. f_equal. lia. }
  assert (Hc : clock wp = (clock w + 62)%nat).
  { unfold wp. rewrite after_polls_clock. simpl. lia. }
  exists {| pid_file := None; clock := S (clock wp);
            trace := trace wp ++ [Print Forcing; Kill pid SIGKILL; Unlink;
                                  Print WasNotRunning] |}.
  split; [|split].
  - unfold try_except, bind at 1. rewrite Hloop.
    unfold bind, print, log, os_kill, unlink, ret. cbn [clock trace pid_file].
    rewrite (Running_c_int _ _ _ _ Hrun), Hc, Hgone.
    cbn [is_ProcessLookupError clock trace pid_file].
    by rewrite <- !app_assoc.
  - reflexivity.
  - cbn [trace]. unfold wp. rewrite after_polls_trace. cbn [trace w0 terminating].
    by rewrite <- !app_assoc.
Qed.

(** *** [start] on a stopped daemon *)

(** The world once [subprocess.run] has returned. *)
Definition spawned (w : world) : world :=
  {| pid_file := pid_file_after env (clock w) (pid_file w);
     clock := S (clock w);
     trace := trace w ++ [Run] |}.

(** The world after the half second [start] gives the daemon. *)
Definition settled (w : world) : world :=
  {| pid_file := pid_file_after env (S (clock w)) (pid_file (spawned w));
     clock := S (S (clock w));
     trace := trace w ++ [Run; Sleep 500] |}.

Lemma start_stopped w w1 :
  get_pid w = (Ok None, w1) ->
  start w =
  (if (returncode env (clock w1) =? 0)%Z then
     pid <~ get_pid ;;
     match truthy pid with
     | Some pid => print (Started pid) ;;; ret 0
     | None => print StartedNoPid ;;; ret 1
     end
   else print FailedToStart ;;; ret (returncode env (clock w1))) 
  (if (returncode env (clock w1) =? 0)%Z then settled w1 else spawned w1).
Proof.
  intros Hget. unfold Daemon.start. unfold bind at 1. rewrite Hget. simpl.
  unfold bind at 1, subprocess_run. simpl.
  destruct (returncode env (clock w1) =? 0)%Z; [|done].
  unfold bind at 1, sleep, settled, spawned. simpl. by rewrite <- !app_assoc.
Qed.

(** X23. When [get_pid] finds no daemon and the spawn fails, [start] passes the
    return code of the spawn on, without waiting and without looking for a
    PID file. *)
Theorem start_spawn_failure w w1 :
  get_pid w = (Ok None, w1) ->
  returncode env (clock w1) <> 0 ->
  start w =
  (Ok (returncode env (clock w1)),
   {| pid_file := pid_file (spawned w1); clock := S (clock w1);
      trace := trace w1 ++ [Run; Print FailedToStart] |}).
Proof.
  intros Hget Hrc.
  rewrite (start_stopped _ _ Hget).
  rewrite (proj2 (Z.eqb_neq _ _) Hrc).
  unfold bind, print, log, ret, spawned. simpl. by rewrite <- !app_assoc.
Qed.

(** X24. When the spawn succeeds and, half a second later, the PID file names a
    live process, [start] prints that id and returns 0. *)
Theorem start_spawn_success w w1 pid :
  get_pid w = (Ok None, w1) ->
  returncode env (clock w1) = 0 ->
  Running (settled w1) pid ->
  start w =
  (Ok 0, {| pid_file := pid_file (settled w1); clock := S (clock (settled w1));
            trace := trace w1 ++ [Run; Sleep 500; Kill pid SIG0; Print (Started pid)] |}).
Proof.
  intros Hget Hrc Hrun.
  rewrite (start_stopped _ _ Hget), Hrc. simpl.
  unfold bind at 1.
  rewrite (get_pid_running _ _ _ _ Hrun), (truthy_running _ _ _ _ Hrun).
  unfold bind, print, log, ret, probed. simpl. by rewrite <- !app_assoc.
Qed.

(** X25. When the spawn succeeds but, half a second later, the daemon counts as
    stopped, [start] returns 1 although the spawn returned 0, and no PID
    file is left. *)
Theorem start_spawn_no_pid w w1 :
  get_pid w = (Ok None, w1) ->
  returncode env (clock w1) = 0 ->
  Stopped (settled w1) ->
  exists w2,
    get_pid (settled w1) = (Ok None, w2) /\
    start w =
    (Ok 1, {| pid_file := None; clock := clock w2;
              trace := trace w2 ++ [Print StartedNoPid] |}).
Proof.
  intros Hget Hrc Hst.
  destruct (get_pid_stopped _ _ _ Hst) as (w2 & Hget2 & Hnone).
  exists w2. split; [done|].
  rewrite (start_stopped _ _ Hget), Hrc. simpl.
  unfold bind at 1. rewrite Hget2. simpl.
  unfold bind, print, log, ret. simpl. by rewrite Hnone.
Qed.

(** X26. [start] returns 0 only when its last call was a probe that found the
    process the PID file names, after a spawn and the half second. *)
Theorem start_success_sound w w' :
  start w = (Ok 0, w') ->
  exists pid called before,
    recorded_pid w' = Some pid /\ pid <> 0 /\
    clock w' = S called /\ process env called pid = Alive /\
    trace w' = before ++ [Run; Sleep 500; Kill pid SIG0; Print (Started pid)].
Proof.
  unfold Daemon.start. unfold bind at 1.
  destruct (get_pid w) as [[answer|e] w1] eqn:Hget; [|done].
  destruct (truthy answer) as [pid|] eqn:Htruthy.
  { unfold bind, print, ret. simpl. done. }
  unfold bind at 1, subprocess_run. simpl.
  destruct (returncode env (clock w1) =? 0)%Z eqn:Hrc.
  2:{ unfold bind, print, ret. simpl. intros [= Hz _].
      rewrite Hz in Hrc. done. }
  unfold bind at 1, sleep. simpl. unfold bind at 1.
  match goal with
  | |- context [Daemon.get_pid int_strip env ?x] => set (w2 := x)
  end.
  destruct (get_pid_cases w2)
    as [[Hf ->] | [[_ ->] | [(p & _ & _ & ->)
       | [(p & Hr & _ & Hlive & ->) | (p & _ & _ & ->)]]]];
    simpl; try done.
  destruct (p =? 0)%Z eqn:Hz; simpl; [done|].
  intros [= <-]. exists p, (clock w2), (trace w1). apply Z.eqb_neq in Hz.
  repeat split; try done. simpl. by rewrite <- !app_assoc.
Qed.

End Commands.

(** *** [main] *)

Section MainFacts.

Variable int_strip : string -> option Z.
Variable env : environment.
Variable lower : string -> string.

(** X27. Without a command, or with one that is not in [commands], [main]
    prints the usage and returns 1; it does not so much as look at the PID
    file. *)
Theorem main_rejects argv :
  match argv with
  | _ :: arg :: _ => dict_get (lower arg) (commands int_strip env) = None
  | _ => True
  end ->
  (exists lines, fst (main int_strip env lower argv) = lines ++ [Usage]) /\
  forall w, snd (main int_strip env lower argv) w = (Ok 1, w).
Proof.
  unfold main. destruct argv as [|prog [|arg rest]].
  - intros _. split; [by exists []|done].
  - intros _. split; [by exists []|done].
  - intros ->. split; [by eexists [_]|done].
Qed.

(** X28. A command in [commands], in whatever case [lower] undoes, is run as it
    is, further arguments ignored. *)
Theorem main_dispatches prog arg rest name run :
  lower arg = name -> (name, run) ∈ commands int_strip env ->
  main int_strip env lower (prog :: arg :: rest) = ([], run).
Proof.
  intros <-. unfold main, commands. rewrite !elem_of_cons, elem_of_nil.
  intros [H|[H|[H|[H|[]]]]]; injection H as -> ->; reflexivity.
Qed.

End MainFacts.

(** *** The theorems at sample environments *)

(** Process 4242 is there for the probe of [get_pid]; from then on the id
    belongs to a process of another user. *)
Definition taken_over : environment :=
  {| process := fun t pid =>
       if (pid =? 4242)%Z then (if (t =? 0)%nat then Alive else Foreign) else Gone;
     returncode := fun _ => 0;
     pid_file_after := fun _ file => file |}.

(** Process 4242 exits between the last probe of [stop] (call 61) and the
    SIGKILL (call 62). *)
Definition lingering : environment :=
  {| process := fun t pid =>
       if (pid =? 4242)%Z && (t <? 62)%nat then Alive else Gone;
     returncode := fun _ => 0;
     pid_file_after := fun _ file => file |}.

(** Process 4242 is there for the probe, the SIGTERM and the first poll
    (calls 0, 1 and 3); from the 6th call on the id belongs to a process of
    another user. *)
Definition handed_over : environment :=
  {| process := fun t pid =>
       if (pid =? 4242)%Z then (if (t <? 5)%nat then Alive else Foreign) else Gone;
     returncode := fun _ => 0;
     pid_file_after := fun _ file => file |}.

(** The spawn fails with code 127. *)
Definition broken_spawn : environment :=
  {| process := fun _ _ => Gone;
     returncode := fun _ => 127;
     pid_file_after := fun _ file => file |}.

(** The spawn returns 0 and no daemon ever writes a PID file. *)
Definition silent_spawn : environment :=
  {| process := fun _ _ => Gone;
     returncode := fun _ => 0;
     pid_file_after := fun _ file => file |}.

(** ASCII letters to lower case. *)
Fixpoint ascii_lower (s : string) : string :=
  match s with
  | EmptyString => EmptyString
  | String c rest =>
      let n := Ascii.nat_of_ascii c in
      String
        (if (65 <=? n)%nat && (n <=? 90)%nat then Ascii.ascii_of_nat (n + 32) else c)
        (ascii_lower rest)
  end.

(** A PID file naming an id one beyond the largest C [int]. *)
Definition recorded_too_large : world :=
  {| pid_file := Some "2147483648"; clock := 0; trace := [] |}.

Example get_pid_too_large :
  get_pid decimal stubborn recorded_too_large = (Raised OverflowError, recorded_too_large) /\
  status decimal stubborn recorded_too_large = (Raised OverflowError, recorded_too_large) /\
  stop decimal stubborn recorded_too_large = (Raised OverflowError, recorded_too_large).
Proof. repeat split. Qed.

Lemma get_pid_answers_witness :
  (pid_file (probed 4242 recorded) = pid_file recorded /\
   recorded_pid decimal recorded = Some 4242 /\
   c_int 4242 = true /\ process stubborn (clock recorded) 4242 = Alive) /\
  get_pid decimal stubborn recorded_too_large =
    (Raised OverflowError, recorded_too_large).
Proof.
  split.
  - apply (proj1 (get_pid_answers decimal stubborn recorded)
             (Some 4242) (probed 4242 recorded)).
    reflexivity.
  - apply (proj2 (get_pid_answers decimal stubborn recorded_too_large) 2147483648);
      reflexivity.
Defined.

Lemma status_exit_code_witness :
  (fst (status decimal stubborn recorded) = Ok 0 <->
   exists pid, Running decimal stubborn recorded pid) /\
  (1 = 0 \/ 1 = 1) /\
  status decimal stubborn recorded_too_large =
    (Raised OverflowError, recorded_too_large).
Proof.
  split; [|split].
  - apply (proj1 (status_exit_code decimal stubborn recorded)).
  - apply (proj1 (proj2 (status_exit_code decimal fresh_boot recorded)) 1).
    reflexivity.
  - apply (proj2 (proj2 (status_exit_code decimal stubborn recorded_too_large))
             2147483648); reflexivity.
Defined.

Lemma stop_when_stopped_witness :
  exists w1,
    get_pid decimal fresh_boot recorded = (Ok None, w1) /\ pid_file w1 = None /\
    stop decimal fresh_boot recorded =
      (Ok 1, {| pid_file := None; clock := clock w1;
                trace := trace w1 ++ [Print NotRunning] |}).
Proof.
  apply (stop_when_stopped decimal fresh_boot recorded).
  right. right. exists 4242. exists "4242". repeat split. discriminate.
Defined.

Lemma stop_permission_error_witness :
  exists w',
    stop decimal handed_over recorded = (Raised PermissionError, w') /\
    trace w' =
      trace recorded ++ [Kill 4242 SIG0; Kill 4242 SIGTERM] ++
      Print (Stopping 4242) :: polls 4242 2.
Proof.
  apply (stop_permission_error decimal handed_over recorded 4242 2).
  - exists "4242". repeat split. lia.
  - lia.
  - intros [|[|j]] Hj; [reflexivity | reflexivity | lia].
  - reflexivity.
Defined.

Lemma stop_forced_too_late_witness :
  exists w',
    stop decimal lingering recorded = (Ok 0, w') /\
    pid_file w' = None /\
    trace w' =
      trace recorded ++ [Kill 4242 SIG0; Kill 4242 SIGTERM; Print (Stopping 4242)] ++
      polls 4242 30 ++ [Print Forcing; Kill 4242 SIGKILL; Unlink; Print WasNotRunning].
Proof.
  apply (stop_forced_too_late decimal lingering recorded 4242).
  - exists "4242". repeat split. lia.
  - reflexivity.
  - intros j Hj.
    change (process lingering (clock recorded + 2 * j + 1)%nat 4242)
      with (if (4242 =? 4242)%Z && (clock recorded + 2 * j + 1 <? 62)%nat
            then Alive else Gone).
    destruct (Nat.ltb_spec (clock recorded + 2 * j + 1) 62) as [_|Hge];
      [reflexivity | simpl in Hge; lia].
  - reflexivity.
Defined.

Lemma start_spawn_failure_witness :
  start decimal broken_spawn no_pid_file =
  (Ok (returncode broken_spawn (clock no_pid_file)),
   {| pid_file := pid_file (spawned broken_spawn no_pid_file);
      clock := S (clock no_pid_file);
      trace := trace no_pid_file ++ [Run; Print FailedToStart] |}).
Proof.
  apply (start_spawn_failure decimal broken_spawn no_pid_file no_pid_file).
  - reflexivity.
  - discriminate.
Defined.

Example start_broken_spawn :
  start decimal broken_spawn no_pid_file =
  (Ok 127, {| pid_file := None; clock := 1; trace := [Run; Print FailedToStart] |}).
Proof. reflexivity. Qed.

Lemma start_spawn_success_witness :
  start decimal fresh_boot recorded =
  (Ok 0,
   {| pid_file := pid_file (settled fresh_boot (cleaned 4242 recorded));
      clock := S (clock (settled fresh_boot (cleaned 4242 recorded)));
      trace := trace (cleaned 4242 recorded) ++
               [Run; Sleep 500; Kill 4300 SIG0; Print (Started 4300)] |}).
Proof.
  apply (start_spawn_success decimal fresh_boot recorded (cleaned 4242 recorded) 4300).
  - reflexivity.
  - reflexivity.
  - exists "4300". repeat split. lia.
Defined.

Lemma start_spawn_no_pid_witness :
  exists w2,
    get_pid decimal silent_spawn (settled silent_spawn no_pid_file) = (Ok None, w2) /\
    start decimal silent_spawn no_pid_file =
    (Ok 1, {| pid_file := None; clock := clock w2;
              trace := trace w2 ++ [Print StartedNoPid] |}).
Proof.
  apply (start_spawn_no_pid decimal silent_spawn no_pid_file no_pid_file).
  - reflexivity.
  - reflexivity.
  - by left.
Defined.

Lemma start_success_sound_witness :
  exists pid called before,
    recorded_pid decimal (snd (start decimal fresh_boot recorded)) = Some pid /\
    pid <> 0 /\
    clock (snd (start decimal fresh_boot recorded)) = S called /\
    process fresh_boot called pid = Alive /\
    trace (snd (start decimal fresh_boot recorded)) =
      before ++ [Run; Sleep 500; Kill pid SIG0; Print (Started pid)].
Proof.
  apply (start_success_sound decimal fresh_boot recorded).
  reflexivity.
Defined.

Lemma main_rejects_witness :
  (exists lines,
     fst (main decimal stubborn ascii_lower ["server.py"; "Reload"]) = lines ++ [Usage]) /\
  forall w, snd (main decimal stubborn ascii_lower ["server.py"; "Reload"]) w = (Ok 1, w).
Proof.
  apply (main_rejects decimal stubborn ascii_lower ["server.py"; "Reload"]).
  reflexivity.
Defined.

Lemma main_dispatches_witness :
  main decimal stubborn ascii_lower ["server.py"; "STOP"; "now"] =
  ([], stop decimal stubborn).
Proof.
  apply (main_dispatches decimal stubborn ascii_lower "server.py" "STOP" ["now"] "stop").
  - reflexivity.
  - repeat constructor.
Defined.

End DaemonFacts.
